(** * FAQ bot: sanitizer, knowledge-base loaders, fuzzy intent matcher,
      alternating responses and response generator

    A shallow embedding of [faq_bot_plus.py] (and of the copy of
    [sanitize_text] in [discord_faq_bot.py]).

    Conventions.
    - A Python [str] is a [string]; character-level functions work on its
      [list ascii], every [ascii] standing for the code point of the same
      number (0..255).  On that range the character classes below are the
      ones of Python: [str.isspace], [str.lower], [string.punctuation].
    - A Python [int] is a [Z]; [float('inf')] is a constructor of its own.
    - A raised exception is a [Raise] result; code that mutates the
      process-wide [response_manager] passes it explicitly.
    - The regex engine, the spaCy gazetteer matcher and the spaCy entity
      recognizer are libraries: they are Section variables. *)

From Stdlib Require Import ZArith NArith List Ascii String Bool Lia.
From stdpp Require Import base option list strings gmap.

Local Open Scope string_scope.
Local Open Scope Z_scope.

(** ** Python strings *)

Module PyStr.

Definition ord (c : ascii) : N := N_of_ascii c.

Definition LF : ascii := "010"%char.
Definition CR : ascii := "013"%char.
Definition SP : ascii := " "%char.

(** [str.isspace] on one character: TAB..CR, FS..US, space, NEL, NBSP. *)
Definition isspace (c : ascii) : bool :=
  let n := ord c in
  (((9 <=? n) && (n <=? 13)) || ((28 <=? n) && (n <=? 32))
   || (n =? 133) || (n =? 160))%N.

(** [str.isupper] on one character: A..Z and the capital letters of the
    Latin-1 supplement (the multiplication sign 215 is not a letter). *)
Definition isupper (c : ascii) : bool :=
  let n := ord c in
  (((65 <=? n) && (n <=? 90))
   || ((192 <=? n) && (n <=? 222) && negb (n =? 215)))%N.

(** [str.lower] on one character. *)
Definition lower_char (c : ascii) : ascii :=
  if isupper c then ascii_of_N (ord c + 32) else c.

Definition lower (s : list ascii) : list ascii := map lower_char s.

(** [string.punctuation], the 32 ASCII punctuation characters. *)
Definition punctuation : list ascii :=
  list_ascii_of_string "!" ++ ["034"%char]
    ++ list_ascii_of_string "#$%&'()*+,-./:;<=>?@[\]^_`{|}~".

Definition mem (c : ascii) (cs : list ascii) : bool :=
  existsb (Ascii.eqb c) cs.

(** [s.translate(str.maketrans('', '', deletechars))] *)
Definition translate_delete (deletechars s : list ascii) : list ascii :=
  List.filter (fun c => negb (mem c deletechars)) s.

(** [s.split()]: the maximal runs of non-whitespace characters.
    [split_go s] is the run [s] starts with (empty when [s] starts with
    whitespace) and the runs after it. *)
Definition add_word (w : list ascii) (ws : list (list ascii)) :=
  match w with
  | [] => ws
  | _ :: _ => w :: ws
  end.

Fixpoint split_go (s : list ascii) : list ascii * list (list ascii) :=
  match s with
  | [] => ([], [])
  | c :: s' =>
      let '(w, ws) := split_go s' in
      if isspace c then ([], add_word w ws) else (c :: w, ws)
  end.

Definition split (s : list ascii) : list (list ascii) :=
  let '(w, ws) := split_go s in add_word w ws.

(** [sep.join(ws)] *)
Fixpoint join (sep : list ascii) (ws : list (list ascii)) : list ascii :=
  match ws with
  | [] => []
  | [w] => w
  | w :: ws' => w ++ sep ++ join sep ws'
  end.

(** [s.strip()] *)
Fixpoint lstrip (s : list ascii) : list ascii :=
  match s with
  | [] => []
  | c :: s' => if isspace c then lstrip s' else s
  end.

Definition rstrip (s : list ascii) : list ascii := rev (lstrip (rev s)).

Definition strip (s : list ascii) : list ascii := rstrip (lstrip s).

(** Text-mode reading with universal newlines: CR LF and a lone CR reach
    the program as LF. *)
Fixpoint universal_newlines (s : list ascii) : list ascii :=
  match s with
  | [] => []
  | c :: s' =>
      if Ascii.eqb c CR then
        LF :: match s' with
              | [] => []
              | d :: s'' =>
                  if Ascii.eqb d LF then universal_newlines s''
                  else universal_newlines s'
              end
      else c :: universal_newlines s'
  end.

(** [f.readlines()] on translated text: the lines in order, each with
    its terminating LF; a last line without LF is a line too. *)
Fixpoint lines_of (s : list ascii) : list (list ascii) :=
  match s with
  | [] => []
  | c :: s' =>
      if Ascii.eqb c LF then [c] :: lines_of s'
      else match lines_of s' with
           | [] => [[c]]
           | l :: ls => (c :: l) :: ls
           end
  end.


(** The text does not start with whitespace. *)
Definition clean_head (s : list ascii) : Prop :=
  match s with
  | [] => True
  | c :: _ => isspace c = false
  end.

(** A word of [split]: not empty and free of whitespace. *)
Definition word (w : list ascii) : Prop :=
  w <> [] /\ Forall (fun c => isspace c = false) w.

End PyStr.

(** ** Sanitizer ([sanitize_text], the same body in both source files) *)

Definition sanitize_chars (text : list ascii) : list ascii :=
  (* text = text.translate(str.maketrans('', '', string.punctuation)) *)
  let text := PyStr.translate_delete PyStr.punctuation text in
  (* text = ' '.join(text.split()) *)
  let text := PyStr.join [PyStr.SP] (PyStr.split text) in
  (* return text.lower() *)
  PyStr.lower text.

Definition sanitize_text (text : string) : string :=
  string_of_list_ascii (sanitize_chars (list_ascii_of_string text)).

(** The words of the sanitized text: those of the text without its
    punctuation, in lower case. *)
Definition words (text : list ascii) : list (list ascii) :=
  map PyStr.lower (PyStr.split (PyStr.translate_delete PyStr.punctuation text)).

(** ** Exceptions *)

Inductive exn : Set :=
| FileNotFoundError   (* open() on a missing file *)
| IndexError          (* list index out of range *)
| RegexError.         (* re.error: the pattern does not compile *)

Inductive result (A : Type) : Type :=
| Ok (a : A)
| Raise (e : exn).
Arguments Ok {A} a.
Arguments Raise {A} e.

#[global] Instance result_ret : MRet result := fun _ a => Ok a.
#[global] Instance result_bind : MBind result := fun _ _ k r =>
  match r with
  | Ok a => k a
  | Raise e => Raise e
  end.

Definition returns {A} (r : result A) : Prop := exists a, r = Ok a.

(** [l[i]] for a Python list: negative indices count from the end. *)
Definition getitem {A} (l : list A) (i : Z) : result A :=
  let j := if i <? 0 then i + Z.of_nat (length l) else i in
  if j <? 0 then Raise IndexError
  else match l !! Z.to_nat j with
       | Some x => Ok x
       | None => Raise IndexError
       end.

(** ** Knowledge base loaders *)

Definition py_strip (s : string) : string :=
  string_of_list_ascii (PyStr.strip (list_ascii_of_string s)).

(** [f.readlines()] of a file opened in text mode. *)
Definition readlines (content : string) : list string :=
  string_of_list_ascii
    <$> PyStr.lines_of (PyStr.universal_newlines (list_ascii_of_string content)).

(** [open(path, 'r')] followed by reading: the files are a finite map from
    path to text. *)
Definition open_read (fs : gmap string string) (path : string) : result string :=
  match fs !! path with
  | Some content => Ok content
  | None => Raise FileNotFoundError
  end.

(** [[line.strip() for line in f.readlines()]] *)
Definition stripped_lines (content : string) : list string :=
  py_strip <$> readlines content.

Definition load_FAQ_data (fs : gmap string string)
  : result (list string * list string) :=
  q_file ← open_read fs "questions.txt";
  let questions := stripped_lines q_file in
  a_file ← open_read fs "answers.txt";
  let answers := stripped_lines a_file in
  mret (questions, answers).

Definition load_fuzzy_regex_patterns (fs : gmap string string)
  : result (list string) :=
  r_file ← open_read fs "regex.txt";
  let patterns := stripped_lines r_file in
  mret patterns.

(** The loader as the specification words it: one entry per non-empty
    line, whitespace-trimmed, blank lines contributing nothing, in source
    order. *)
Definition spec_entries (content : string) : list string :=
  List.filter (fun e => negb (String.eqb e "")) (py_strip <$> readlines content).

(** The number of lines of a text: one per LF, and one more for a last
    line that no LF ends. *)
Fixpoint line_count_from (pending : bool) (s : list ascii) : nat :=
  match s with
  | [] => if pending then 1%nat else 0%nat
  | c :: s' =>
      if Ascii.eqb c PyStr.LF then S (line_count_from false s')
      else line_count_from true s'
  end.

Definition line_count (content : string) : nat :=
  line_count_from false (PyStr.universal_newlines (list_ascii_of_string content)).

(** ** Fuzzy intent matcher *)

(** What [re.search(regex, utterance, flags=re.IGNORECASE)] does: raise
    [re.error], return [None], or return a match object, of which the code
    reads [fuzzy_counts] only (substitutions, insertions, deletions). *)
Inductive search_result : Set :=
| ReError
| NoMatch
| Match (fuzzy_counts : nat * nat * nat).

(** [sum(match.fuzzy_counts)] *)
Definition sum_counts (fuzzy_counts : nat * nat * nat) : nat :=
  let '(s, i, d) := fuzzy_counts in (s + i + d)%nat.

(** [best_match_errors] is [float('inf')] until the first match. *)
Inductive errors_bound : Set :=
| Inf
| Errors (n : nat).

(** [total_errors < best_match_errors] *)
Definition lt_bound (total_errors : nat) (b : errors_bound) : bool :=
  match b with
  | Inf => true
  | Errors n => (total_errors <? n)%nat
  end.

Definition NONE : Z := -1.

(** [enumerate(l)], counting from [start]. *)
Fixpoint enumerate_from {A} (start : Z) (l : list A) : list (Z * A) :=
  match l with
  | [] => []
  | x :: l' => (start, x) :: enumerate_from (start + 1) l'
  end.

Definition enumerate {A} (l : list A) : list (Z * A) := enumerate_from 0 l.

Section Understand.

Variable re_search : string -> string -> search_result.

(** The [for] loop of [understand] over the remaining (idx, regex)
    pairs, from the current values of the two local variables. *)
Fixpoint understand_loop (utterance : string) (items : list (Z * string))
    (best_match_idx : Z) (best_match_errors : errors_bound) : result Z :=
  match items with
  | [] => Ok best_match_idx
  | (idx, regex) :: items' =>
      match re_search regex utterance with
      | ReError => Raise RegexError
      | NoMatch =>
          understand_loop utterance items' best_match_idx best_match_errors
      | Match fuzzy_counts =>
          let total_errors := sum_counts fuzzy_counts in
          if lt_bound total_errors best_match_errors
          then understand_loop utterance items' idx (Errors total_errors)
          else understand_loop utterance items' best_match_idx best_match_errors
      end
  end.

Definition understand (utterance : string) (regex_list : list string) : result Z :=
  understand_loop utterance (enumerate regex_list) NONE Inf.

(** Pattern number [j] of [regex_list] matches [utterance] with [e]
    errors in total. *)
Definition matches_with (utterance : string) (regex_list : list string)
    (j : nat) (e : nat) : Prop :=
  exists regex fuzzy_counts,
    regex_list !! j = Some regex
    /\ re_search regex utterance = Match fuzzy_counts
    /\ sum_counts fuzzy_counts = e.

(** Every pattern of the list is one the engine accepts. *)
Definition compiles (utterance : string) (regex_list : list string) : Prop :=
  Forall (fun regex => re_search regex utterance <> ReError) regex_list.

(** The two local variables of [understand] once the patterns [seen]
    have been tried: nothing matched yet, or [best_match_idx] is the
    earliest pattern of least error count among those that matched. *)
Definition best_state (utterance : string) (seen : list string)
    (best_match_idx : Z) (best_match_errors : errors_bound) : Prop :=
  (best_match_idx = NONE /\ best_match_errors = Inf
   /\ forall j e, ~ matches_with utterance seen j e)
  \/ (exists i e,
        best_match_idx = Z.of_nat i /\ best_match_errors = Errors e
        /\ matches_with utterance seen i e
        /\ forall j e', matches_with utterance seen j e' ->
             (e <= e')%nat /\ (e' = e -> (i <= j)%nat)).

End Understand.

(** ** Alternating responses *)

(** The three rules registered with the gazetteer matcher ([patterns]). *)
Inductive rule : Set := CHARACTER | PLACE | EVENT.

(** [nlp.vocab.strings[match_id]]: the label a rule was added under. *)
Definition rule_label (r : rule) : string :=
  match r with
  | CHARACTER => "CHARACTER"
  | PLACE => "PLACE"
  | EVENT => "EVENT"
  end.

(** [ResponseManager]: its one attribute is the dict [last_response]. *)
Record ResponseManager : Type := { last_response : gmap string Z }.

(** [ResponseManager()] *)
Definition new_manager : ResponseManager := {| last_response := ∅ |}.

(** The dict [responses] built at each call, formatted with [entity_text].
    (The typographic apostrophe of the fourth entry is kept as the bytes
    of the source file.) *)
Definition responses (entity_text : string) : gmap string (list string) :=
  {[ "CHARACTER" :=
       [ "What would you like to know about " +:+ entity_text +:+ "?";
         "I'm not quite sure about " +:+ entity_text
           +:+ ". Can you ask about another character or a different topic?" ];
     "PLACE" :=
       [ "What would you like to know about the place called "
           +:+ entity_text +:+ "?";
         "The place called " +:+ entity_text
           +:+ " is beyond my current knowledge. What else can I assist with?" ];
     "EVENT" :=
       [ "What details are you interested in about the event known as "
           +:+ entity_text +:+ "?";
         "I have limited information on the event called " +:+ entity_text
           +:+ ". Perhaps inquire about a different event?" ];
     "OTHER" :=
       [ "Sorry, I don’t have information on " +:+ entity_text +:+ ".";
         "My knowledge about " +:+ entity_text
           +:+ " is limited. Feel free to ask another question." ] ]}.

(** [responses.get(entity_label, responses["OTHER"])] *)
Definition templates (entity_label entity_text : string) : list string :=
  default (responses entity_text !!! "OTHER")
          (responses entity_text !! entity_label).

(** [self.last_response.get(entity_label, 0)] *)
Definition next_index (self : ResponseManager) (entity_label : string) : Z :=
  default 0 (last_response self !! entity_label).

Definition get_response (entity_label entity_text : string)
    (self : ResponseManager) : result string * ResponseManager :=
  let response_index := next_index self entity_label in
  match getitem (templates entity_label entity_text) response_index with
  | Raise e => (Raise e, self)
  | Ok response =>
      (Ok response,
       {| last_response :=
            <[entity_label := (response_index + 1) `mod` 2]> (last_response self) |})
  end.

(** Successive calls of [get_response] on one manager: the responses in
    order and the manager after the last call. *)
Fixpoint get_responses (calls : list (string * string)) (self : ResponseManager)
  : list (result string) * ResponseManager :=
  match calls with
  | [] => ([], self)
  | (entity_label, entity_text) :: calls' =>
      let '(r, self') := get_response entity_label entity_text self in
      let '(rs, self'') := get_responses calls' self' in
      (r :: rs, self'')
  end.

(** How many of [calls] carry the label [entity_label]. *)
Definition hits (entity_label : string) (calls : list (string * string)) : nat :=
  length (List.filter (fun call => String.eqb (fst call) entity_label) calls).

(** Every stored index is 0 or 1, as [(response_index + 1) % 2] leaves it. *)
Definition alternating (self : ResponseManager) : Prop :=
  forall entity_label i,
    last_response self !! entity_label = Some i -> i = 0 \/ i = 1.

(** ** Entity fallback analyzer and response generator *)

Definition clarification : string :=
  "Can you please rephrase your question or ask about something else?".

Definition other_labels : list string := ["PERSON"; "GPE"; "LOC"; "ORG"].

Section Bot.

(** [re.search] of the regex library. *)
Variable re_search : string -> string -> search_result.
(** [matcher(nlp(utterance))]: for each match in order, its rule and the
    text of its span. *)
Variable matcher : string -> list (rule * string).
(** [nlp(utterance).ents]: for each entity in order, [label_] and [text]. *)
Variable ents : string -> list (string * string).

Definition analyze_utterance (utterance : string) (rm : ResponseManager)
  : result string * ResponseManager :=
  match matcher utterance with
  | (label, span_text) :: _ => get_response (rule_label label) span_text rm
  | [] =>
      match List.find (fun ent => bool_decide (fst ent ∈ other_labels))
                      (ents utterance) with
      | Some ent => get_response "OTHER" (snd ent) rm
      | None => (Ok clarification, rm)
      end
  end.

Definition generate (intent : Z) (questions answers : list string)
    (utterance : string) (rm : ResponseManager)
  : result string * ResponseManager :=
  if bool_decide (intent = -1) then analyze_utterance utterance rm
  else (getitem answers intent, rm).

(** One turn of the driver past the greetings: [understand], then
    [generate], both on the utterance as typed. *)
Definition pipeline (utterance : string) (regex_list questions answers : list string)
    (rm : ResponseManager) : result string * ResponseManager :=
  match understand re_search utterance regex_list with
  | Raise e => (Raise e, rm)
  | Ok intent => generate intent questions answers utterance rm
  end.

End Bot.

(** ** Sample collaborators, to run the definitions on concrete inputs *)

Module Sample.

(** An engine given by a finite table of (pattern, utterance, counts);
    the pattern "(" does not compile and every other search finds
    nothing. *)
Definition table : list (string * string * (nat * nat * nat)) :=
  [ ("help", "help", (0, 0, 0)%nat);
    ("hepl", "help", (2, 0, 0)%nat);
    ("helps", "help", (0, 0, 1)%nat);
    ("elp", "help", (0, 0, 0)%nat) ].

Definition re_search (regex utterance : string) : search_result :=
  if String.eqb regex "(" then ReError
  else match List.find (fun row => String.eqb (fst (fst row)) regex
                                   && String.eqb (snd (fst row)) utterance) table with
       | Some row => Match (snd row)
       | None => NoMatch
       end.

Definition matcher (utterance : string) : list (rule * string) :=
  if String.eqb utterance "Who was Adam?" then [(CHARACTER, "Adam")]
  else if String.eqb utterance "Tell me about Noah and Egypt"
       then [(CHARACTER, "Noah"); (PLACE, "Egypt")]
  else [].

Definition ents (utterance : string) : list (string * string) :=
  if String.eqb utterance "What is 2 plus 2 at noon?"
  then [("CARDINAL", "2"); ("CARDINAL", "2"); ("TIME", "noon")]
  else if String.eqb utterance "Where is Toronto?" then [("GPE", "Toronto")]
  else [].

(** Three lines, the second one blank. *)
Definition questions_text : string :=
  "q1" +:+ String PyStr.LF (String PyStr.LF ("q2" +:+ String PyStr.LF "")).

(** Two lines, the last one without a line end. *)
Definition answers_text : string := " a1 " +:+ String PyStr.LF "a2".

(** Two lines, the first one ended by CR LF. *)
Definition regex_text : string :=
  "help" +:+ String PyStr.CR (String PyStr.LF "hepl").

Definition fs : gmap string string :=
  {[ "questions.txt" := questions_text;
     "answers.txt" := answers_text;
     "regex.txt" := regex_text ]}.

End Sample.

(** ** Console driver ([main] of [faq_bot_plus.py]) *)

(** What the console driver writes: [print(text)], or the prompt that
    [input(text)] shows before it reads a line. *)
Inductive event : Set :=
| Print (text : string)
| Prompt (text : string).

(** How a run of the driver ends: the loop was left by [break], an
    exception was not caught, or [input] found no more line to read (it
    raises [EOFError]). *)
Inductive outcome : Set :=
| Finished
| Uncaught (e : exn)
| EndOfInput.

Definition banner : list event :=
  [ Print ("Hello! I have knowledge about chat bots. "
           +:+ "Type 'goodbye' when you wish to end the conversation.");
    Print "" ].

Definition hello_reply : string := "Hello! How can I assist you?".
Definition goodbye_reply : string := "Goodbye! Have a wonderful day!".
Definition farewell : string := "It was pleasant interacting with you!".

(** ** Discord driver ([MyClient] of [discord_faq_bot.py]) *)

(** Of a [discord.Message] the handler reads whether the author is the
    client's own user, whether the author is a bot, and the content. *)
Record Message : Type := {
  author_is_user : bool;   (* message.author == self.user *)
  author_bot : bool;       (* message.author.bot *)
  content : string
}.

(** The attributes [__init__] sets on the client. *)
Record MyClient : Type := {
  self_questions : list string;
  self_responses : list string;
  self_regex_list : list string
}.

(** What one run of [on_message] does to the outside: the messages sent
    to the channel, in order, and whether the client was closed. *)
Record reaction : Type := {
  sent : list string;
  closed : bool
}.


Section Drivers.

Variable re_search : string -> string -> search_result.
Variable matcher : string -> list (rule * string).
Variable ents : string -> list (string * string).

(** The [while True] loop of [main], reading the lines [inputs]. *)
Fixpoint main_loop (inputs : list string)
    (questions responses regex_list : list string) (rm : ResponseManager)
  : list event * outcome * ResponseManager :=
  match inputs with
  | [] => ([Prompt ">>> "], EndOfInput, rm)
  | utterance :: inputs' =>
      let sanitized_utterance := sanitize_text utterance in
      if String.eqb sanitized_utterance "hello" then
        let '(out, o, rm') :=
          main_loop inputs' questions responses regex_list rm in
        (Prompt ">>> " :: Print hello_reply :: Print "" :: out, o, rm')
      else if String.eqb sanitized_utterance "goodbye" then
        ([Prompt ">>> "; Print goodbye_reply], Finished, rm)
      else
        match pipeline re_search matcher ents
                utterance regex_list questions responses rm with
        | (Raise e, rm') => ([Prompt ">>> "], Uncaught e, rm')
        | (Ok response, rm') =>
            let '(out, o, rm'') :=
              main_loop inputs' questions responses regex_list rm' in
            (Prompt ">>> " :: Print response :: Print "" :: out, o, rm'')
        end
  end.

(** [main()], run on the files [fs] and the input lines [inputs], with
    the response manager the module creates when it is loaded. *)
Definition main (fs : gmap string string) (inputs : list string)
  : list event * outcome * ResponseManager :=
  match load_FAQ_data fs with
  | Raise e => (banner, Uncaught e, new_manager)
  | Ok (questions, responses) =>
      match load_fuzzy_regex_patterns fs with
      | Raise e => (banner, Uncaught e, new_manager)
      | Ok regex_list =>
          let '(out, o, rm) :=
            main_loop inputs questions responses regex_list new_manager in
          match o with
          | Finished =>
              ((banner ++ out ++ [Print farewell])%list, Finished, rm)
          | _ => ((banner ++ out)%list, o, rm)
          end
      end
  end.

(** [MyClient.on_message], run to its end on one message. *)
Definition on_message (self : MyClient) (message : Message)
    (rm : ResponseManager) : result reaction * ResponseManager :=
  if author_is_user message || author_bot message then
    (Ok {| sent := []; closed := false |}, rm)
  else
    let utterance := content message in
    let sanitized_utterance := sanitize_text utterance in
    if String.eqb sanitized_utterance "hello" then
      (Ok {| sent := [hello_reply]; closed := false |}, rm)
    else if String.eqb sanitized_utterance "goodbye" then
      (Ok {| sent := [goodbye_reply]; closed := true |}, rm)
    else
      match pipeline re_search matcher ents utterance
              (self_regex_list self) (self_questions self)
              (self_responses self) rm with
      | (Raise e, rm') => (Raise e, rm')
      | (Ok response, rm') =>
          (Ok {| sent := [response]; closed := false |}, rm')
      end.

End Drivers.

(** ** Helpers to state the properties *)

(** A text file with one entry per line, each line ended by LF. *)
Fixpoint unlines (entries : list string) : string :=
  match entries with
  | [] => ""
  | entry :: entries' => entry +:+ String PyStr.LF (unlines entries')
  end.

(** The shift of an index of [regex_list] to an index of a list with [k]
    more patterns in front; NONE stays NONE. *)
Definition shift_index (k : Z) (r : Z) : Z :=
  if bool_decide (r = NONE) then NONE else r + k.

(** A character the sanitizer drops: punctuation or whitespace. *)
Definition dropped (c : ascii) : bool :=
  PyStr.mem c PyStr.punctuation || PyStr.isspace c.

(** * Properties *)

(** ** Character classes *)

Module PyStrFacts.
Import PyStr.
Local Open Scope list_scope.

Ltac by_cases_on_char c :=
  destruct c as [[] [] [] [] [] [] [] []]; vm_compute; reflexivity.

Lemma lower_char_idem c : lower_char (lower_char c) = lower_char c.
Proof. by_cases_on_char c. Qed.


Lemma isspace_lower_char c : isspace (lower_char c) = isspace c.
Proof. by_cases_on_char c. Qed.

Lemma punctuation_lower_char c :
  mem (lower_char c) punctuation = mem c punctuation.
Proof. by_cases_on_char c. Qed.

Lemma lower_app s t : lower (s ++ t) = lower s ++ lower t.
Proof. apply map_app. Qed.

Lemma lower_idem s : lower (lower s) = lower s.
Proof.
  unfold lower. rewrite map_map. apply map_ext, lower_char_idem.
Qed.

Lemma lower_join ws : lower (join [SP] ws) = join [SP] (map lower ws).
Proof.
  induction ws as [|w [|w' ws'] IH]; simpl in *; try reflexivity.
  rewrite lower_app. simpl. now rewrite IH.
Qed.

(** *** [translate_delete] *)

Lemma translate_delete_Forall del s :
  Forall (fun c => mem c del = false) (translate_delete del s).
Proof.
  apply List.Forall_forall. intros c Hc.
  apply List.filter_In in Hc as [_ Hc]. now apply negb_true_iff.
Qed.

Lemma translate_delete_id del s :
  Forall (fun c => mem c del = false) s -> translate_delete del s = s.
Proof.
  induction 1 as [|c s Hc _ IH]; simpl; [reflexivity|].
  rewrite Hc. simpl. now f_equal.
Qed.

(** *** [split] *)

Lemma word_cons c w :
  isspace c = false -> Forall (fun c => isspace c = false) w -> word (c :: w).
Proof. intros Hc Hw. split; [discriminate | now constructor]. Qed.

Lemma add_word_words w ws :
  Forall (fun c => isspace c = false) w -> Forall word ws ->
  Forall word (add_word w ws).
Proof.
  intros Hw Hws. destruct w as [|c w]; simpl; [assumption|].
  constructor; [|assumption]. inversion Hw; subst. now apply word_cons.
Qed.

Lemma split_go_words s :
  Forall (fun c => isspace c = false) (fst (split_go s))
  /\ Forall word (snd (split_go s)).
Proof.
  induction s as [|c s [IHw IHws]]; simpl.
  - split; constructor.
  - destruct (split_go s) as [w ws]; simpl in *.
    destruct (isspace c) eqn:Hc; simpl.
    + split; [constructor | now apply add_word_words].
    + split; [now constructor | assumption].
Qed.

Lemma split_words s : Forall word (split s).
Proof.
  unfold split. pose proof (split_go_words s) as [Hw Hws].
  destruct (split_go s) as [w ws]. now apply add_word_words.
Qed.

(** Splitting keeps a property that all characters of the text have. *)
Lemma split_go_Forall (P : ascii -> Prop) s :
  Forall P s ->
  Forall P (fst (split_go s)) /\ Forall (Forall P) (snd (split_go s)).
Proof.
  induction 1 as [|c s Hc _ [IHw IHws]]; simpl.
  - split; constructor.
  - destruct (split_go s) as [w ws]; simpl in *.
    destruct (isspace c); simpl.
    + split; [constructor|]. destruct w; simpl; [assumption | now constructor].
    + split; [now constructor | assumption].
Qed.

Lemma split_Forall (P : ascii -> Prop) s :
  Forall P s -> Forall (Forall P) (split s).
Proof.
  intros H. unfold split. destruct (split_go_Forall P s H) as [Hw Hws].
  destruct (split_go s) as [w ws]; simpl in *.
  destruct w; simpl; [assumption | now constructor].
Qed.

Lemma split_go_app w s :
  Forall (fun c => isspace c = false) w ->
  split_go (w ++ s) = (w ++ fst (split_go s), snd (split_go s)).
Proof.
  induction 1 as [|c w Hc _ IH]; simpl.
  - now destruct (split_go s).
  - rewrite IH, Hc. reflexivity.
Qed.

Lemma split_word w : word w -> split w = [w].
Proof.
  intros [Hne Hw]. unfold split.
  rewrite <- (app_nil_r w) at 1. rewrite (split_go_app w [] Hw). simpl.
  rewrite app_nil_r. now destruct w.
Qed.

Lemma split_word_space w s : word w -> split (w ++ SP :: s) = w :: split s.
Proof.
  intros [Hne Hw]. unfold split at 1. rewrite (split_go_app w _ Hw).
  simpl. unfold split. destruct (split_go s) as [v vs]. simpl.
  rewrite app_nil_r. now destruct w.
Qed.

Lemma split_join ws : Forall word ws -> split (join [SP] ws) = ws.
Proof.
  induction 1 as [|w ws Hw Hws IH]; [reflexivity|].
  destruct ws as [|w' ws'].
  - simpl. now apply split_word.
  - change (join [SP] (w :: w' :: ws')) with (w ++ SP :: join [SP] (w' :: ws')).
    rewrite split_word_space by assumption. now rewrite IH.
Qed.

Lemma join_Forall (P : ascii -> Prop) ws :
  P SP -> Forall (Forall P) ws -> Forall P (join [SP] ws).
Proof.
  intros HSP. induction 1 as [|w ws Hw Hws IH]; [constructor|].
  destruct ws as [|w' ws']; [exact Hw|].
  change (join [SP] (w :: w' :: ws')) with (w ++ SP :: join [SP] (w' :: ws')).
  apply Forall_app. split; [assumption|]. now constructor.
Qed.

Lemma word_lower w : word w -> word (lower w).
Proof.
  intros [Hne Hw]. split.
  - destruct w; [congruence | discriminate].
  - unfold lower. apply List.Forall_map.
    eapply List.Forall_impl; [|exact Hw].
    intros c Hc. cbv beta. now rewrite isspace_lower_char.
Qed.

(** *** [strip] *)

Lemma lstrip_clean_head s : clean_head (lstrip s).
Proof.
  induction s as [|c s IH]; simpl; [exact I|].
  destruct (isspace c) eqn:Hc; [exact IH | exact Hc].
Qed.

Lemma clean_head_lstrip s : clean_head s -> lstrip s = s.
Proof. destruct s as [|c s]; simpl; [reflexivity|]. now intros ->. Qed.

Lemma lstrip_idem s : lstrip (lstrip s) = lstrip s.
Proof. apply clean_head_lstrip, lstrip_clean_head. Qed.

Lemma lstrip_snoc r c :
  isspace c = false -> exists u, lstrip (r ++ [c]) = u ++ [c].
Proof.
  intros Hc. induction r as [|d r [u IH]]; simpl.
  - rewrite Hc. now exists [].
  - destruct (isspace d).
    + now exists u.
    + now exists (d :: r).
Qed.

Lemma rstrip_clean_head t : clean_head t -> clean_head (rstrip t).
Proof.
  unfold rstrip. destruct t as [|c t]; simpl; [trivial|].
  intros Hc. destruct (lstrip_snoc (rev t) c Hc) as [u ->].
  rewrite rev_app_distr. exact Hc.
Qed.

Lemma strip_clean_head s : clean_head (strip s).
Proof. apply rstrip_clean_head, lstrip_clean_head. Qed.

Lemma strip_clean_last s : clean_head (rev (strip s)).
Proof.
  unfold strip, rstrip. rewrite rev_involutive. apply lstrip_clean_head.
Qed.

Lemma strip_fixed s : clean_head s -> clean_head (rev s) -> strip s = s.
Proof.
  intros Hh Hl. unfold strip, rstrip.
  rewrite (clean_head_lstrip s Hh), (clean_head_lstrip _ Hl).
  apply rev_involutive.
Qed.

Lemma strip_idem s : strip (strip s) = strip s.
Proof. apply strip_fixed; [apply strip_clean_head | apply strip_clean_last]. Qed.

(** *** The shape of [' '.join(words)] *)









End PyStrFacts.

(** ** Sanitizer *)

Section SanitizerFacts.
Import PyStr PyStrFacts.
Local Open Scope list_scope.

Lemma sanitize_chars_join text : sanitize_chars text = join [SP] (words text).
Proof. unfold sanitize_chars, words. apply lower_join. Qed.

Lemma words_word text : Forall word (words text).
Proof.
  unfold words. apply List.Forall_map.
  eapply List.Forall_impl; [|apply split_words]. apply word_lower.
Qed.

Lemma words_no_punctuation text :
  Forall (Forall (fun c => mem c punctuation = false)) (words text).
Proof.
  unfold words. apply List.Forall_map.
  eapply List.Forall_impl; [|apply split_Forall, translate_delete_Forall].
  intros w Hw. unfold lower. apply List.Forall_map.
  eapply List.Forall_impl; [|exact Hw].
  intros c Hc. cbv beta. now rewrite punctuation_lower_char.
Qed.


Lemma words_lower text : map lower (words text) = words text.
Proof. unfold words. rewrite map_map. apply map_ext, lower_idem. Qed.


Lemma sanitize_chars_idem text :
  sanitize_chars (sanitize_chars text) = sanitize_chars text.
Proof.
  rewrite (sanitize_chars_join text). unfold sanitize_chars.
  rewrite translate_delete_id
    by (apply join_Forall; [reflexivity | apply words_no_punctuation]).
  rewrite split_join by apply words_word.
  now rewrite lower_join, words_lower.
Qed.

(** C6. Sanitization is idempotent: sanitizing an already sanitized
    string gives that string back. *)
Theorem sanitize_text_idempotent (x : string) :
  sanitize_text (sanitize_text x) = sanitize_text x.
Proof.
  unfold sanitize_text. rewrite list_ascii_of_string_of_list_ascii.
  now rewrite sanitize_chars_idem.
Qed.


End SanitizerFacts.

(** ** Fuzzy intent matcher *)

Section UnderstandFacts.
Local Open Scope list_scope.

Variable re_search : string -> string -> search_result.
Variable utterance : string.

Local Notation "'matches' l" := (matches_with re_search utterance l)
  (at level 10, l at level 9).
Local Notation "'loop' items" := (understand_loop re_search utterance items)
  (at level 10, items at level 9).

Lemma matches_with_lt l j e : matches l j e -> (j < length l)%nat.
Proof. intros (regex & fc & Hj & _). now apply lookup_lt_Some in Hj. Qed.

Lemma matches_with_snoc seen regex j e :
  matches (seen ++ [regex]) j e <->
  matches seen j e
  \/ (j = length seen
      /\ exists fc, re_search regex utterance = Match fc /\ sum_counts fc = e).
Proof.
  split.
  - intros (r & fc & Hj & Hr & He).
    destruct (decide (j < length seen)%nat) as [Hlt|Hge].
    + left. rewrite lookup_app_l in Hj by assumption. now exists r, fc.
    + right. rewrite lookup_app_r in Hj by lia.
      destruct (j - length seen)%nat as [|n] eqn:E; simpl in Hj; [|done].
      injection Hj as ->. split; [lia | now exists fc].
  - intros [(r & fc & Hj & Hr & He) | (-> & fc & Hr & He)].
    + exists r, fc. split; [|done].
      rewrite lookup_app_l; [done | now apply lookup_lt_Some in Hj].
    + exists regex, fc. split; [|done].
      rewrite lookup_app_r by lia. now rewrite Nat.sub_diag.
Qed.

(** A pattern that finds nothing leaves the two variables as they are. *)
Lemma best_state_no_match seen regex idx b :
  re_search regex utterance = NoMatch ->
  best_state re_search utterance seen idx b ->
  best_state re_search utterance (seen ++ [regex]) idx b.
Proof.
  intros Hno [(-> & -> & Hnone) | (i & e & -> & -> & Hi & Hmin)].
  - left. repeat split. intros j e Hm.
    apply matches_with_snoc in Hm as [Hm | (_ & fc & Hfc & _)];
      [now apply (Hnone j e) | congruence].
  - right. exists i, e. repeat split.
    + apply matches_with_snoc. now left.
    + apply matches_with_snoc in H as [Hm | (_ & fc & Hfc & _)];
        [now apply (Hmin j e') | congruence].
    + apply matches_with_snoc in H as [Hm | (_ & fc & Hfc & _)];
        [now apply (Hmin j e') | congruence].
Qed.

(** A match with strictly fewer errors takes over. *)
Lemma best_state_better seen regex idx b fc :
  re_search regex utterance = Match fc ->
  lt_bound (sum_counts fc) b = true ->
  best_state re_search utterance seen idx b ->
  best_state re_search utterance (seen ++ [regex])
             (Z.of_nat (length seen)) (Errors (sum_counts fc)).
Proof.
  intros Hfc Hlt Hst. right. exists (length seen), (sum_counts fc).
  repeat split.
  - apply matches_with_snoc. right. split; [done | now exists fc].
  - apply matches_with_snoc in H as [Hm | (_ & fc' & Hfc' & <-)].
    + destruct Hst as [(_ & _ & Hnone) | (i & e & _ & -> & _ & Hmin)].
      * now destruct (Hnone j e').
      * simpl in Hlt. apply Nat.ltb_lt in Hlt.
        destruct (Hmin j e' Hm). lia.
    + replace fc' with fc by congruence. lia.
  - intros ->. apply matches_with_snoc in H as [Hm | (-> & _)]; [|lia].
    destruct Hst as [(_ & _ & Hnone) | (i & e & _ & -> & _ & Hmin)].
    + now destruct (Hnone j (sum_counts fc)).
    + simpl in Hlt. apply Nat.ltb_lt in Hlt.
      destruct (Hmin j _ Hm). lia.
Qed.

(** A match with as many errors or more changes nothing. *)
Lemma best_state_not_better seen regex idx b fc :
  re_search regex utterance = Match fc ->
  lt_bound (sum_counts fc) b = false ->
  best_state re_search utterance seen idx b ->
  best_state re_search utterance (seen ++ [regex]) idx b.
Proof.
  intros Hfc Hlt [(-> & -> & Hnone) | (i & e & -> & -> & Hi & Hmin)];
    [discriminate|].
  simpl in Hlt. apply Nat.ltb_ge in Hlt.
  right. exists i, e. repeat split.
  - apply matches_with_snoc. now left.
  - apply matches_with_snoc in H as [Hm | (_ & fc' & Hfc' & <-)].
    + now apply (Hmin j e').
    + replace fc' with fc by congruence. lia.
  - intros ->. apply matches_with_snoc in H as [Hm | (-> & _)].
    + now apply (Hmin j e).
    + apply matches_with_lt in Hi. lia.
Qed.

Lemma understand_loop_best rest : forall seen idx b,
  compiles re_search utterance rest ->
  best_state re_search utterance seen idx b ->
  exists r b',
    loop (enumerate_from (Z.of_nat (length seen)) rest) idx b = Ok r
    /\ best_state re_search utterance (seen ++ rest) r b'.
Proof.
  induction rest as [|regex rest IH]; intros seen idx b Hc Hst.
  - exists idx, b. rewrite app_nil_r. now split.
  - apply Forall_cons in Hc as [Hregex Hc].
    assert (Hlen : Z.of_nat (length seen) + 1
                   = Z.of_nat (length (seen ++ [regex])))
      by (rewrite length_app; simpl; lia).
    assert (Happ : seen ++ regex :: rest = (seen ++ [regex]) ++ rest)
      by now rewrite <- app_assoc.
    simpl. rewrite Hlen, Happ.
    destruct (re_search regex utterance) as [| |fc] eqn:Hs; [done| |].
    + apply IH; [done | now apply best_state_no_match].
    + destruct (lt_bound (sum_counts fc) b) eqn:Hlt.
      * apply IH; [done | eapply best_state_better; eassumption].
      * apply IH; [done | eapply best_state_not_better; eassumption].
Qed.

Lemma understand_loop_range rest : forall k idx b,
  0 <= k -> idx = NONE \/ 0 <= idx < k ->
  match loop (enumerate_from k rest) idx b with
  | Ok r => r = NONE \/ 0 <= r < k + Z.of_nat (length rest)
  | Raise e => e = RegexError /\ ~ compiles re_search utterance rest
  end.
Proof.
  induction rest as [|regex rest IH]; intros k idx b Hk Hidx; simpl.
  - lia.
  - assert (Hnot : forall e,
              e = RegexError /\ ~ compiles re_search utterance rest ->
              e = RegexError /\ ~ compiles re_search utterance (regex :: rest)).
    { intros e [-> Hn]. split; [done|]. intros Hc.
      now apply Forall_cons in Hc as [_ Hc]. }
    destruct (re_search regex utterance) as [| |fc] eqn:Hs.
    + split; [done|]. intros Hc. now apply Forall_cons in Hc as [Hc _].
    + specialize (IH (k + 1) idx b).
      destruct (loop _ idx b); [lia | apply Hnot, IH; lia].
    + destruct (lt_bound (sum_counts fc) b).
      * specialize (IH (k + 1) k (Errors (sum_counts fc))).
        destruct (loop _ k _); [lia | apply Hnot, IH; lia].
      * specialize (IH (k + 1) idx b).
        destruct (loop _ idx b); [lia | apply Hnot, IH; lia].
Qed.

(** C1. On a list of patterns the engine accepts, [understand] returns
    the index of a matching pattern whose total error count is least
    among all matching patterns, and of the patterns that reach this
    least count the earliest one; when no pattern matches it returns
    NONE (-1), as it does in particular on the empty list. *)
Theorem understand_returns_best (regex_list : list string) :
  compiles re_search utterance regex_list ->
  (exists r,
      understand re_search utterance regex_list = Ok r
      /\ ((exists i e,
             r = Z.of_nat i /\ matches regex_list i e
             /\ forall j e', matches regex_list j e' ->
                  (e <= e')%nat /\ (e' = e -> (i <= j)%nat))
          \/ (r = NONE /\ forall j e, ~ matches regex_list j e)))
  /\ understand re_search utterance [] = Ok NONE.
Proof.
  intros Hc. split; [|reflexivity].
  destruct (understand_loop_best regex_list [] NONE Inf Hc) as (r & b & Hr & Hst).
  - left. repeat split. intros j e (regex & fc & Hj & _). done.
  - exists r. split; [exact Hr|].
    destruct Hst as [(-> & _ & Hnone) | (i & e & -> & _ & Hi & Hmin)].
    + now right.
    + left. now exists i, e.
Qed.

Lemma understand_range (regex_list : list string) :
  match understand re_search utterance regex_list with
  | Ok r => r = NONE \/ 0 <= r < Z.of_nat (length regex_list)
  | Raise e => e = RegexError /\ ~ compiles re_search utterance regex_list
  end.
Proof.
  pose proof (understand_loop_range regex_list 0 NONE Inf) as H.
  unfold understand, enumerate.
  destruct (loop _ NONE Inf); (apply H; [lia | now left]).
Qed.

(** C10. The result of [understand] is NONE (-1) or an integer [i] with
    [0 <= i < len(regex_list)], an index of the pattern list it was
    given; the only way for it not to return is a pattern the engine
    refuses. *)
Theorem understand_index_in_range (regex_list : list string) :
  match understand re_search utterance regex_list with
  | Ok r => r = -1 \/ 0 <= r < Z.of_nat (length regex_list)
  | Raise e => e = RegexError /\ ~ compiles re_search utterance regex_list
  end.
Proof.
  pose proof (understand_loop_range regex_list 0 NONE Inf) as H.
  unfold understand, enumerate, NONE in *.
  destruct (loop _ (-1) Inf); (apply H; [lia | now left]).
Qed.

End UnderstandFacts.

Lemma understand_returns_best_witness :
  compiles Sample.re_search "help" ["hepl"; "helps"; "elp"; "help"; "zzz"]
  /\ ((exists r,
         understand Sample.re_search "help"
                    ["hepl"; "helps"; "elp"; "help"; "zzz"] = Ok r
         /\ ((exists i e,
                r = Z.of_nat i
                /\ matches_with Sample.re_search "help"
                     ["hepl"; "helps"; "elp"; "help"; "zzz"] i e
                /\ forall j e',
                     matches_with Sample.re_search "help"
                       ["hepl"; "helps"; "elp"; "help"; "zzz"] j e' ->
                     (e <= e')%nat /\ (e' = e -> (i <= j)%nat))
             \/ (r = NONE
                 /\ forall j e,
                      ~ matches_with Sample.re_search "help"
                          ["hepl"; "helps"; "elp"; "help"; "zzz"] j e)))
      /\ understand Sample.re_search "help" [] = Ok NONE).
Proof.
  assert (Hc : compiles Sample.re_search "help"
                 ["hepl"; "helps"; "elp"; "help"; "zzz"])
    by (repeat constructor; vm_compute; discriminate).
  split; [exact Hc|].
  exact (understand_returns_best Sample.re_search "help" _ Hc).
Defined.

Example understand_sample :
  understand Sample.re_search "help" ["hepl"; "helps"; "elp"; "help"; "zzz"]
  = Ok 2.
Proof. reflexivity. Qed.

(** ** Alternating responses *)

Section ResponseManagerFacts.
Local Open Scope list_scope.

Ltac two_templates :=
  eexists _, _; split;
  [reflexivity | let H := fresh in intros H; cbn in H; discriminate H].

(** Whatever the label, there are two templates, and they differ. *)
Lemma templates_pair entity_label entity_text :
  exists v0 v1, templates entity_label entity_text = [v0; v1] /\ v0 <> v1.
Proof.
  unfold templates, responses.
  destruct (decide (entity_label = "CHARACTER")) as [->|H1];
    [two_templates|].
  destruct (decide (entity_label = "PLACE")) as [->|H2];
    [two_templates|].
  destruct (decide (entity_label = "EVENT")) as [->|H3];
    [two_templates|].
  destruct (decide (entity_label = "OTHER")) as [->|H4];
    [two_templates|].
  rewrite !lookup_insert_ne, lookup_singleton_ne by congruence.
  two_templates.
Qed.

Lemma next_index_alternating self entity_label :
  alternating self ->
  next_index self entity_label = 0 \/ next_index self entity_label = 1.
Proof.
  intros Halt. unfold next_index.
  destruct (last_response self !! entity_label) as [i|] eqn:E; simpl;
    [now apply (Halt entity_label) | now left].
Qed.

Lemma new_manager_alternating : alternating new_manager.
Proof. intros l i. simpl. now rewrite lookup_empty. Qed.

(** What one call does on a manager whose stored indices are 0 or 1. *)
Lemma get_response_alternating entity_label entity_text self :
  alternating self ->
  exists response,
    get_response entity_label entity_text self
    = (Ok response,
       {| last_response :=
            <[entity_label := (next_index self entity_label + 1) `mod` 2]>
              (last_response self) |})
    /\ templates entity_label entity_text
         !! Z.to_nat (next_index self entity_label) = Some response.
Proof.
  intros Halt. unfold get_response.
  destruct (templates_pair entity_label entity_text) as (v0 & v1 & -> & _).
  destruct (next_index_alternating self entity_label Halt) as [-> | ->].
  - now exists v0.
  - now exists v1.
Qed.

Lemma get_response_keeps_alternating entity_label entity_text self :
  alternating self ->
  alternating (snd (get_response entity_label entity_text self)).
Proof.
  intros Halt.
  destruct (get_response_alternating entity_label entity_text self Halt)
    as (response & -> & _).
  intros l i. simpl. rewrite lookup_insert.
  case_decide; [|apply Halt].
  intros [= <-].
  destruct (next_index_alternating self entity_label Halt) as [-> | ->];
    [now right | now left].
Qed.

Lemma next_index_after entity_label entity_text self l :
  alternating self ->
  Z.to_nat (next_index (snd (get_response entity_label entity_text self)) l)
  = ((Z.to_nat (next_index self l)
      + (if String.eqb entity_label l then 1 else 0)) mod 2)%nat.
Proof.
  intros Halt.
  destruct (get_response_alternating entity_label entity_text self Halt)
    as (response & -> & _).
  unfold next_index at 1. simpl. rewrite lookup_insert.
  destruct (String.eqb_spec entity_label l) as [->|Hne].
  - rewrite decide_True by reflexivity. simpl.
    destruct (next_index_alternating self l Halt) as [-> | ->]; reflexivity.
  - rewrite decide_False by assumption. fold (next_index self l).
    destruct (next_index_alternating self l Halt) as [-> | ->]; reflexivity.
Qed.

Lemma hits_cons entity_label call calls :
  hits entity_label (call :: calls)
  = ((if String.eqb (fst call) entity_label then 1 else 0)
     + hits entity_label calls)%nat.
Proof. unfold hits. simpl. now destruct (String.eqb _ _). Qed.

Lemma get_responses_alternate calls : forall self n entity_label entity_text,
  alternating self ->
  calls !! n = Some (entity_label, entity_text) ->
  exists response,
    fst (get_responses calls self) !! n = Some (Ok response)
    /\ templates entity_label entity_text
         !! ((Z.to_nat (next_index self entity_label)
              + hits entity_label (take n calls)) mod 2)%nat
       = Some response.
Proof.
  induction calls as [|[l0 t0] calls IH]; intros self n l t Halt Hn; [done|].
  simpl.
  pose proof (get_response_keeps_alternating l0 t0 self Halt) as Halt'.
  pose proof (next_index_after l0 t0 self l Halt) as Hnext.
  destruct (get_response_alternating l0 t0 self Halt) as (r0 & Hr0 & Ht0).
  destruct (get_response l0 t0 self) as [r self'] eqn:Hcall.
  injection Hr0 as -> Hself'. cbn [snd] in Halt', Hnext.
  destruct n as [|n].
  - injection Hn as -> ->. exists r0.
    destruct (get_responses calls self'). split; [reflexivity|].
    simpl. unfold hits. simpl. rewrite Nat.add_0_r.
    destruct (next_index_alternating self l Halt) as [E | E];
      rewrite E in *; exact Ht0.
  - simpl in Hn.
    destruct (IH self' n l t Halt' Hn) as (response & Hresp & Htemp).
    exists response. destruct (get_responses calls self') as [rs self''].
    split; [exact Hresp|].
    rewrite <- Htemp. f_equal.
    rewrite Hnext. simpl take. rewrite hits_cons. simpl fst.
    rewrite Nat.Div0.add_mod_idemp_l. now rewrite Nat.add_assoc.
Qed.

(** C2. In a run of calls of [get_response] on a fresh manager, each call
    answers with the template of its label whose number is the parity of
    the earlier calls with the same label: variant 0 at the first call
    for a label, then variant 1, then variant 0 again, whatever entity
    texts are passed and whatever calls for other labels come between;
    and the two variants of a label are different strings. *)
Theorem get_response_alternates (calls : list (string * string)) (n : nat)
    (entity_label entity_text : string) :
  calls !! n = Some (entity_label, entity_text) ->
  (exists response,
      fst (get_responses calls new_manager) !! n = Some (Ok response)
      /\ templates entity_label entity_text
           !! (hits entity_label (take n calls) mod 2)%nat = Some response)
  /\ exists v0 v1, templates entity_label entity_text = [v0; v1] /\ v0 <> v1.
Proof.
  intros Hn. split; [|apply templates_pair].
  exact (get_responses_alternate calls new_manager n entity_label entity_text
           new_manager_alternating Hn).
Qed.

(** C9. A call of [get_response] for one label leaves the stored index
    of every other label, or its absence, as it was. *)
Theorem get_response_frame (entity_label entity_text other : string)
    (self : ResponseManager) :
  other <> entity_label ->
  last_response (snd (get_response entity_label entity_text self)) !! other
  = last_response self !! other.
Proof.
  intros Hne. unfold get_response.
  destruct (getitem _ _); simpl; [|reflexivity].
  now rewrite lookup_insert_ne.
Qed.

End ResponseManagerFacts.

Lemma get_response_alternates_witness :
  [("CHARACTER", "Adam"); ("PLACE", "Eden"); ("CHARACTER", "Noah");
   ("CHARACTER", "Eve")] !! 2%nat = Some ("CHARACTER", "Noah")
  /\ ((exists response,
         fst (get_responses
                [("CHARACTER", "Adam"); ("PLACE", "Eden");
                 ("CHARACTER", "Noah"); ("CHARACTER", "Eve")] new_manager)
           !! 2%nat = Some (Ok response)
         /\ templates "CHARACTER" "Noah"
              !! (hits "CHARACTER"
                    (take 2 [("CHARACTER", "Adam"); ("PLACE", "Eden");
                             ("CHARACTER", "Noah"); ("CHARACTER", "Eve")])
                  mod 2)%nat = Some response)
      /\ exists v0 v1, templates "CHARACTER" "Noah" = [v0; v1] /\ v0 <> v1).
Proof.
  split; [reflexivity|].
  apply (get_response_alternates
           [("CHARACTER", "Adam"); ("PLACE", "Eden"); ("CHARACTER", "Noah");
            ("CHARACTER", "Eve")] 2 "CHARACTER" "Noah").
  reflexivity.
Defined.

Lemma get_response_frame_witness :
  "PLACE" <> "CHARACTER"
  /\ last_response
       (snd (get_response "CHARACTER" "Adam"
               {| last_response := {[ "PLACE" := 1 ]} |})) !! "PLACE"
     = ({[ "PLACE" := 1 ]} : gmap string Z) !! "PLACE".
Proof.
  assert (Hne : "PLACE" <> "CHARACTER") by discriminate.
  split; [exact Hne|].
  exact (get_response_frame "CHARACTER" "Adam" "PLACE"
           {| last_response := {[ "PLACE" := 1 ]} |} Hne).
Defined.

Example alternation_sample :
  fst (get_responses
         [("CHARACTER", "Adam"); ("CHARACTER", "Noah"); ("CHARACTER", "Eve")]
         new_manager)
  = [Ok "What would you like to know about Adam?";
     Ok ("I'm not quite sure about Noah. "
         +:+ "Can you ask about another character or a different topic?");
     Ok "What would you like to know about Eve?"].
Proof. reflexivity. Qed.

(** ** Entity fallback analyzer, response generator, pipeline *)

Lemma getitem_in_range {A} (l : list A) (i : Z) :
  0 <= i < Z.of_nat (length l) ->
  exists x, l !! Z.to_nat i = Some x /\ getitem l i = Ok x.
Proof.
  intros Hi. unfold getitem.
  destruct (Z.ltb_spec i 0) as [|_]; [lia|].
  destruct (Z.ltb_spec i 0) as [|_]; [lia|].
  destruct (lookup_lt_is_Some_2 l (Z.to_nat i)) as [x Hx]; [lia|].
  exists x. now rewrite Hx.
Qed.

Lemma getitem_beyond {A} (l : list A) (i : Z) :
  Z.of_nat (length l) <= i -> getitem l i = Raise IndexError.
Proof.
  intros Hi. unfold getitem.
  destruct (Z.ltb_spec i 0) as [|_]; [lia|].
  destruct (Z.ltb_spec i 0) as [|_]; [lia|].
  now rewrite lookup_ge_None_2 by lia.
Qed.

Section BotFacts.
Local Open Scope list_scope.

Variable re_search : string -> string -> search_result.
Variable matcher : string -> list (rule * string).
Variable ents : string -> list (string * string).

Local Notation "'analyze' u" := (analyze_utterance matcher ents u)
  (at level 10, u at level 9).
Local Notation "'gen' i" := (generate matcher ents i)
  (at level 10, i at level 9).
Local Notation "'run' u" := (pipeline re_search matcher ents u)
  (at level 10, u at level 9).

(** On a manager whose stored indices are 0 or 1 the analyzer answers
    with a string and keeps the indices 0 or 1. *)
Lemma analyze_utterance_returns utterance rm :
  alternating rm ->
  returns (fst (analyze utterance rm))
  /\ alternating (snd (analyze utterance rm)).
Proof.
  intros Halt. unfold analyze_utterance.
  destruct (matcher utterance) as [|[label span_text] _].
  - destruct (List.find _ (ents utterance)) as [ent|].
    + destruct (get_response_alternating "OTHER" (snd ent) rm Halt)
        as (response & Hr & _).
      split; [rewrite Hr; now exists response|].
      now apply get_response_keeps_alternating.
    + split; [now exists clarification | exact Halt].
  - destruct (get_response_alternating (rule_label label) span_text rm Halt)
      as (response & Hr & _).
    split; [rewrite Hr; now exists response|].
    now apply get_response_keeps_alternating.
Qed.

(** C3. When the match index is not NONE, [generate] is the indexing
    [answers[intent]] and nothing else: it returns the stored answer at
    that index as it is and leaves the response manager alone.  When
    the match index is NONE, [generate] is the entity fallback analyzer
    applied to the utterance it was given, which the driver passes as
    typed, not sanitized. *)
Theorem generate_answer_or_fallback (intent : Z)
    (questions answers : list string) (utterance : string)
    (rm : ResponseManager) :
  (intent <> NONE ->
     gen intent questions answers utterance rm = (getitem answers intent, rm)
     /\ (0 <= intent < Z.of_nat (length answers) ->
         exists answer,
           answers !! Z.to_nat intent = Some answer
           /\ gen intent questions answers utterance rm = (Ok answer, rm)))
  /\ (intent = NONE ->
        gen intent questions answers utterance rm = analyze utterance rm)
  /\ (forall regex_list,
        understand re_search utterance regex_list = Ok NONE ->
        run utterance regex_list questions answers rm = analyze utterance rm).
Proof.
  unfold pipeline, generate, NONE. repeat split.
  - now rewrite bool_decide_eq_false_2.
  - intros Hi. destruct (getitem_in_range answers intent Hi) as (a & Ha & Hg).
    exists a. split; [exact Ha|].
    now rewrite bool_decide_eq_false_2, Hg.
  - intros ->. reflexivity.
  - intros regex_list ->. reflexivity.
Qed.

(** C8. When the gazetteer matcher finds nothing in the utterance and
    the recognizer finds no entity labelled PERSON, GPE, LOC or ORG,
    [analyze_utterance] returns the fixed clarification prompt and the
    response manager is the one it was given. *)
Theorem analyze_utterance_clarification (utterance : string)
    (rm : ResponseManager) :
  matcher utterance = [] ->
  Forall (fun ent => fst ent ∉ other_labels) (ents utterance) ->
  analyze utterance rm
  = (Ok "Can you please rephrase your question or ask about something else?",
     rm).
Proof.
  intros Hm He. unfold analyze_utterance. rewrite Hm.
  destruct (List.find _ (ents utterance)) as [ent|] eqn:Hfind; [|reflexivity].
  apply List.find_some in Hfind as [Hin Hlabel].
  apply bool_decide_eq_true in Hlabel.
  rewrite List.Forall_forall in He. now destruct (He ent Hin).
Qed.

(** C4, as the code has it.  On patterns the engine accepts and a
    response manager whose stored indices are 0 or 1 (a fresh one, or
    one left by earlier turns): with at least as many answers as
    patterns the pipeline returns a response string; but an index
    [understand] returns that lies beyond the answers list makes the
    indexing in [generate] raise IndexError, which reaches the caller. *)
Theorem pipeline_responds (utterance : string)
    (regex_list questions answers : list string) (rm : ResponseManager) :
  compiles re_search utterance regex_list ->
  alternating rm ->
  ((length regex_list <= length answers)%nat ->
     returns (fst (run utterance regex_list questions answers rm)))
  /\ (forall intent,
        understand re_search utterance regex_list = Ok intent ->
        Z.of_nat (length answers) <= intent ->
        fst (run utterance regex_list questions answers rm) = Raise IndexError)
  /\ alternating (snd (run utterance regex_list questions answers rm)).
Proof.
  intros Hc Halt. unfold pipeline.
  pose proof (understand_range re_search utterance regex_list) as Hr.
  destruct (understand re_search utterance regex_list) as [intent|e];
    [|now destruct Hr].
  unfold generate. fold NONE.
  destruct (analyze_utterance_returns utterance rm Halt) as [Hret Hkeep].
  destruct Hr as [-> | Hr].
  - rewrite bool_decide_eq_true_2 by reflexivity.
    repeat split; [done | | done].
    intros intent [= <-]. unfold NONE. lia.
  - rewrite bool_decide_eq_false_2 by (unfold NONE; lia).
    repeat split; [ | | done].
    + intros Hlen. simpl.
      destruct (getitem_in_range answers intent) as (a & _ & ->); [lia|].
      now exists a.
    + intros i [= <-] Hi. simpl. now apply getitem_beyond.
Qed.

End BotFacts.

Example generate_sample :
  generate Sample.matcher Sample.ents 1 ["q0"; "q1"] ["a0"; "a1"] "help" new_manager
  = (Ok "a1", new_manager)
  /\ generate Sample.matcher Sample.ents NONE ["q0"; "q1"] ["a0"; "a1"]
       "Who was Adam?" new_manager
     = (Ok "What would you like to know about Adam?",
        {| last_response := {[ "CHARACTER" := 1 ]} |}).
Proof. split; reflexivity. Qed.

Lemma analyze_utterance_clarification_witness :
  Sample.matcher "What is 2 plus 2 at noon?" = []
  /\ Forall (fun ent => fst ent ∉ other_labels)
            (Sample.ents "What is 2 plus 2 at noon?")
  /\ analyze_utterance Sample.matcher Sample.ents "What is 2 plus 2 at noon?"
       {| last_response := {[ "CHARACTER" := 1 ]} |}
     = (Ok "Can you please rephrase your question or ask about something else?",
        {| last_response := {[ "CHARACTER" := 1 ]} |}).
Proof.
  assert (Hm : Sample.matcher "What is 2 plus 2 at noon?" = []) by reflexivity.
  assert (He : Forall (fun ent => fst ent ∉ other_labels)
                      (Sample.ents "What is 2 plus 2 at noon?")).
  { repeat constructor; simpl; unfold other_labels;
      rewrite !elem_of_cons, elem_of_nil; intros H; decompose [or] H;
      discriminate || assumption. }
  split; [exact Hm|]. split; [exact He|].
  exact (analyze_utterance_clarification Sample.matcher Sample.ents
           "What is 2 plus 2 at noon?" _ Hm He).
Defined.

(** C4, as the claim states it, fails: with two patterns and one answer,
    an utterance that only the second pattern matches makes [generate]
    index the answers list out of range. *)
Lemma pipeline_raises_index_error :
  (length ["a0"] < length ["zzz"; "help"])%nat
  /\ compiles Sample.re_search "help" ["zzz"; "help"]
  /\ understand Sample.re_search "help" ["zzz"; "help"] = Ok 1
  /\ fst (pipeline Sample.re_search Sample.matcher Sample.ents
            "help" ["zzz"; "help"] ["q0"] ["a0"] new_manager)
     = Raise IndexError
  /\ ~ returns (fst (pipeline Sample.re_search Sample.matcher Sample.ents
                       "help" ["zzz"; "help"] ["q0"] ["a0"] new_manager)).
Proof.
  split; [simpl; lia|].
  split; [repeat constructor; vm_compute; discriminate|].
  split; [reflexivity|]. split; [reflexivity|].
  intros [response H]. vm_compute in H. discriminate H.
Qed.

Lemma pipeline_responds_witness :
  compiles Sample.re_search "help" ["hepl"; "help"]
  /\ alternating new_manager
  /\ (((length ["hepl"; "help"] <= length ["a0"; "a1"])%nat ->
       returns (fst (pipeline Sample.re_search Sample.matcher Sample.ents
                       "help" ["hepl"; "help"] ["q0"; "q1"] ["a0"; "a1"]
                       new_manager)))
      /\ (forall intent,
            understand Sample.re_search "help" ["hepl"; "help"] = Ok intent ->
            Z.of_nat (length ["a0"; "a1"]) <= intent ->
            fst (pipeline Sample.re_search Sample.matcher Sample.ents
                   "help" ["hepl"; "help"] ["q0"; "q1"] ["a0"; "a1"]
                   new_manager)
            = Raise IndexError)
      /\ alternating
           (snd (pipeline Sample.re_search Sample.matcher Sample.ents
                   "help" ["hepl"; "help"] ["q0"; "q1"] ["a0"; "a1"]
                   new_manager))).
Proof.
  assert (Hc : compiles Sample.re_search "help" ["hepl"; "help"])
    by (repeat constructor; vm_compute; discriminate).
  split; [exact Hc|]. split; [exact new_manager_alternating|].
  exact (pipeline_responds Sample.re_search Sample.matcher Sample.ents
           "help" ["hepl"; "help"] ["q0"; "q1"] ["a0"; "a1"] new_manager
           Hc new_manager_alternating).
Defined.

Example pipeline_sample :
  fst (pipeline Sample.re_search Sample.matcher Sample.ents
         "help" ["hepl"; "help"] ["q0"; "q1"] ["a0"; "a1"] new_manager)
  = Ok "a1".
Proof. reflexivity. Qed.

(** ** Knowledge base loaders *)

Section LoaderFacts.
Import PyStr PyStrFacts.
Local Open Scope list_scope.

Lemma lines_of_concat s : concat (lines_of s) = s.
Proof.
  induction s as [|c s IH]; [reflexivity|]. simpl.
  destruct (Ascii.eqb c LF); simpl; [now rewrite IH|].
  destruct (lines_of s) as [|l ls]; simpl in *; now rewrite <- IH.
Qed.

Lemma lines_of_count s :
  length (lines_of s) = line_count_from false s
  /\ line_count_from true s
     = match lines_of s with
       | [] => 1%nat
       | _ :: _ => length (lines_of s)
       end.
Proof.
  induction s as [|c s [IHf IHt]]; [now split|]. simpl.
  destruct (Ascii.eqb c LF); simpl; [now rewrite IHf|].
  rewrite IHt. destruct (lines_of s); now split.
Qed.

Lemma strip_whitespace s :
  Forall (fun c => isspace c = true) s -> strip s = [].
Proof.
  intros H. unfold strip.
  assert (Hl : lstrip s = [])
    by (induction H as [|c s Hc _ IH]; simpl; [done | now rewrite Hc]).
  now rewrite Hl.
Qed.

Lemma py_strip_idem s : py_strip (py_strip s) = py_strip s.
Proof.
  unfold py_strip. rewrite list_ascii_of_string_of_list_ascii.
  now rewrite strip_idem.
Qed.

Lemma stripped_lines_facts text :
  length (stripped_lines text) = line_count text
  /\ (forall i, stripped_lines text !! i = py_strip <$> readlines text !! i)
  /\ (forall i line,
        readlines text !! i = Some line ->
        Forall (fun c => isspace c = true) (list_ascii_of_string line) ->
        stripped_lines text !! i = Some "")
  /\ Forall (fun entry => py_strip entry = entry) (stripped_lines text)
  /\ concat (list_ascii_of_string <$> readlines text)
     = universal_newlines (list_ascii_of_string text).
Proof.
  unfold stripped_lines, readlines, line_count. repeat split.
  - rewrite !length_fmap. apply lines_of_count.
  - intros i. apply list_lookup_fmap.
  - intros i line Hi Hblank. rewrite list_lookup_fmap, Hi. simpl.
    unfold py_strip. now rewrite strip_whitespace.
  - apply Forall_fmap, Forall_forall. intros line _. apply py_strip_idem.
  - rewrite <- list_fmap_compose.
    erewrite list_fmap_ext; [rewrite list_fmap_id; apply lines_of_concat|].
    intros _ l _. apply list_ascii_of_string_of_list_ascii.
Qed.

(** C5, as the code has it.  When the three files exist, the loaders
    return for each of them one entry per line, blank lines included: as
    many entries as the text has lines, entry [i] being line [i] without
    its leading and trailing whitespace (the empty string for a line of
    whitespace only), in the order of the lines, which are the pieces the
    text splits into after each line end. *)
Theorem loaders_one_entry_per_line (fs : gmap string string)
    (q_text a_text r_text : string) :
  fs !! "questions.txt" = Some q_text ->
  fs !! "answers.txt" = Some a_text ->
  fs !! "regex.txt" = Some r_text ->
  load_FAQ_data fs = Ok (stripped_lines q_text, stripped_lines a_text)
  /\ load_fuzzy_regex_patterns fs = Ok (stripped_lines r_text)
  /\ forall text,
       length (stripped_lines text) = line_count text
       /\ (forall i, stripped_lines text !! i = py_strip <$> readlines text !! i)
       /\ (forall i line,
             readlines text !! i = Some line ->
             Forall (fun c => isspace c = true) (list_ascii_of_string line) ->
             stripped_lines text !! i = Some "")
       /\ Forall (fun entry => py_strip entry = entry) (stripped_lines text)
       /\ concat (list_ascii_of_string <$> readlines text)
          = universal_newlines (list_ascii_of_string text).
Proof.
  intros Hq Ha Hr. unfold load_FAQ_data, load_fuzzy_regex_patterns, open_read.
  rewrite Hq, Ha, Hr. repeat split; apply stripped_lines_facts.
Qed.

End LoaderFacts.

(** C5, as the claim states it, fails: a blank line is not ignored, it
    becomes an empty entry, so the questions loaded from three lines of
    which one is blank are three and not the two of the specification. *)
Lemma loaders_keep_blank_lines :
  Sample.fs !! "questions.txt" = Some Sample.questions_text
  /\ readlines Sample.questions_text
     = ["q1" +:+ String PyStr.LF ""; String PyStr.LF "";
        "q2" +:+ String PyStr.LF ""]
  /\ load_FAQ_data Sample.fs = Ok (["q1"; ""; "q2"], ["a1"; "a2"])
  /\ spec_entries Sample.questions_text = ["q1"; "q2"]
  /\ stripped_lines Sample.questions_text <> spec_entries Sample.questions_text.
Proof.
  split; [reflexivity|]. split; [reflexivity|]. split; [reflexivity|].
  split; [reflexivity|]. vm_compute. discriminate.
Qed.

Lemma loaders_one_entry_per_line_witness :
  Sample.fs !! "questions.txt" = Some Sample.questions_text
  /\ Sample.fs !! "answers.txt" = Some Sample.answers_text
  /\ Sample.fs !! "regex.txt" = Some Sample.regex_text
  /\ load_FAQ_data Sample.fs
     = Ok (stripped_lines Sample.questions_text,
           stripped_lines Sample.answers_text)
  /\ load_fuzzy_regex_patterns Sample.fs
     = Ok (stripped_lines Sample.regex_text)
  /\ forall text,
       length (stripped_lines text) = line_count text
       /\ (forall i, stripped_lines text !! i = py_strip <$> readlines text !! i)
       /\ (forall i line,
             readlines text !! i = Some line ->
             Forall (fun c => PyStr.isspace c = true) (list_ascii_of_string line) ->
             stripped_lines text !! i = Some "")
       /\ Forall (fun entry => py_strip entry = entry) (stripped_lines text)
       /\ concat (list_ascii_of_string <$> readlines text)
          = PyStr.universal_newlines (list_ascii_of_string text).
Proof.
  assert (Hq : Sample.fs !! "questions.txt" = Some Sample.questions_text)
    by reflexivity.
  assert (Ha : Sample.fs !! "answers.txt" = Some Sample.answers_text)
    by reflexivity.
  assert (Hr : Sample.fs !! "regex.txt" = Some Sample.regex_text)
    by reflexivity.
  split; [exact Hq|]. split; [exact Ha|]. split; [exact Hr|].
  exact (loaders_one_entry_per_line Sample.fs _ _ _ Hq Ha Hr).
Defined.

Example loaders_sample :
  load_FAQ_data Sample.fs = Ok (["q1"; ""; "q2"], ["a1"; "a2"])
  /\ load_fuzzy_regex_patterns Sample.fs = Ok ["help"; "hepl"]
  /\ load_fuzzy_regex_patterns ∅ = Raise FileNotFoundError.
Proof. repeat split; reflexivity. Qed.

Example sanitize_sample :
  sanitize_text "  Hello,   World!  " = "hello world"
  /\ sanitize_text "GOODBYE!!!" = "goodbye".
Proof. split; reflexivity. Qed.


(** * Further properties *)

(** ** Sanitizer: what it ignores, what it leaves alone *)

Section SanitizerMore.
Import PyStr PyStrFacts.
Local Open Scope list_scope.

Lemma string_of_list_ascii_nil l : string_of_list_ascii l = "" <-> l = [].
Proof. destruct l; simpl; split; congruence. Qed.

Lemma list_ascii_of_string_inj a b :
  list_ascii_of_string a = list_ascii_of_string b -> a = b.
Proof.
  intros H. rewrite <- (string_of_list_ascii_of_string a),
    <- (string_of_list_ascii_of_string b). now rewrite H.
Qed.






Lemma split_cons_space c s : isspace c = true -> split (c :: s) = split s.
Proof.
  intros Hc. unfold split. simpl. destruct (split_go s) as [w ws].
  now rewrite Hc.
Qed.

Lemma split_cons_word c s : isspace c = false -> split (c :: s) <> [].
Proof.
  intros Hc. unfold split. simpl. destruct (split_go s) as [w ws].
  now rewrite Hc.
Qed.

Lemma split_nil s : split s = [] <-> forallb isspace s = true.
Proof.
  induction s as [|c s IH]; [done|]. simpl.
  destruct (isspace c) eqn:Hc.
  - now rewrite split_cons_space.
  - split; [|done]. intros H. now destruct (split_cons_word c s Hc).
Qed.

Lemma join_nil ws : Forall word ws -> join [SP] ws = [] -> ws = [].
Proof.
  intros Hw. destruct Hw as [|w ws [Hne _] _]; [done|].
  destruct ws; simpl; [done|]. now destruct w.
Qed.

Lemma forallb_dropped s :
  forallb dropped s = true
  <-> forallb isspace (translate_delete punctuation s) = true.
Proof.
  unfold translate_delete.
  induction s as [|c s IH]; [done|]. cbn [forallb List.filter].
  unfold dropped at 1.
  destruct (mem c punctuation); cbn [negb orb andb forallb]; [exact IH|].
  destruct (isspace c); cbn [andb]; [exact IH | done].
Qed.

(** X2. The sanitized text is empty exactly when the text consists of
    punctuation and whitespace only (the empty text included). *)
Theorem sanitize_text_empty_iff (x : string) :
  sanitize_text x = "" <-> forallb dropped (list_ascii_of_string x) = true.
Proof.
  unfold sanitize_text. rewrite string_of_list_ascii_nil.
  rewrite forallb_dropped, <- split_nil, sanitize_chars_join.
  set (s := list_ascii_of_string x). split.
  - intros H. apply join_nil in H; [|apply words_word].
    unfold words in H. now destruct (split _).
  - intros H. unfold words. now rewrite H.
Qed.













End SanitizerMore.



(** ** Knowledge base loaders: missing files, and files written one entry
    per line *)

Section LoaderMore.
Import PyStr PyStrFacts.
Local Open Scope list_scope.

Lemma list_ascii_of_string_append a b :
  list_ascii_of_string (a +:+ b)
  = list_ascii_of_string a ++ list_ascii_of_string b.
Proof. induction a as [|c a IH]; simpl; [reflexivity | now rewrite IH]. Qed.

Lemma universal_newlines_line e rest :
  Forall (fun c => c <> CR) e ->
  universal_newlines (e ++ LF :: rest) = e ++ LF :: universal_newlines rest.
Proof.
  induction 1 as [|c e Hc _ IH]; [reflexivity|].
  cbn [app universal_newlines].
  destruct (Ascii.eqb_spec c CR) as [->|_]; [done | now rewrite IH].
Qed.

Lemma lines_of_line e rest :
  Forall (fun c => c <> LF) e ->
  lines_of (e ++ LF :: rest) = (e ++ [LF]) :: lines_of rest.
Proof.
  induction 1 as [|c e Hc _ IH]; [reflexivity|].
  cbn [app lines_of].
  destruct (Ascii.eqb_spec c LF) as [->|_]; [done | now rewrite IH].
Qed.

Lemma strip_line e : strip e = e -> strip (e ++ [LF]) = e.
Proof.
  intros He.
  assert (Hh : clean_head e) by (rewrite <- He; apply strip_clean_head).
  assert (Hl : clean_head (rev e)) by (rewrite <- He; apply strip_clean_last).
  unfold strip, rstrip. destruct e as [|c e]; [reflexivity|].
  rewrite (clean_head_lstrip ((c :: e) ++ [LF])) by exact Hh.
  rewrite rev_app_distr. cbn [rev app lstrip].
  change (isspace LF) with true. cbv iota.
  change (rev e ++ [c]) with (rev (c :: e)).
  rewrite (clean_head_lstrip _ Hl). apply rev_involutive.
Qed.

(** X5. A file written one entry per line, every line ended by LF, is
    loaded back as these entries, when no entry has whitespace at its
    ends or a line break inside; empty entries are kept. *)
Theorem stripped_lines_unlines (entries : list string) :
  Forall (fun entry =>
            py_strip entry = entry
            /\ Forall (fun c => c <> LF /\ c <> CR) (list_ascii_of_string entry))
         entries ->
  stripped_lines (unlines entries) = entries.
Proof.
  unfold stripped_lines, readlines.
  induction 1 as [|entry entries [Hstrip Hnl] _ IH]; [reflexivity|].
  cbn [unlines]. rewrite list_ascii_of_string_append. cbn [list_ascii_of_string].
  rewrite universal_newlines_line
    by (eapply List.Forall_impl; [|exact Hnl]; now intros c [_ Hc]).
  rewrite lines_of_line
    by (eapply List.Forall_impl; [|exact Hnl]; now intros c [Hc _]).
  rewrite !fmap_cons. f_equal; [|exact IH].
  unfold py_strip in *. rewrite list_ascii_of_string_of_list_ascii.
  rewrite strip_line; [apply string_of_list_ascii_of_string|].
  apply (f_equal list_ascii_of_string) in Hstrip.
  now rewrite list_ascii_of_string_of_list_ascii in Hstrip.
Qed.


End LoaderMore.

Lemma stripped_lines_unlines_witness :
  Forall (fun entry =>
            py_strip entry = entry
            /\ Forall (fun c => c <> PyStr.LF /\ c <> PyStr.CR)
                      (list_ascii_of_string entry))
         ["What is a bot?"; ""; "a1"]
  /\ stripped_lines (unlines ["What is a bot?"; ""; "a1"])
     = ["What is a bot?"; ""; "a1"].
Proof.
  assert (H : Forall (fun entry =>
                py_strip entry = entry
                /\ Forall (fun c => c <> PyStr.LF /\ c <> PyStr.CR)
                          (list_ascii_of_string entry))
                ["What is a bot?"; ""; "a1"])
    by (repeat constructor; discriminate).
  split; [exact H|]. exact (stripped_lines_unlines _ H).
Defined.

(** ** Fuzzy intent matcher: failures, and patterns that cannot win *)

Section UnderstandMore.
Local Open Scope list_scope.

Variable re_search : string -> string -> search_result.
Variable utterance : string.

Local Notation "'loop' items" := (understand_loop re_search utterance items)
  (at level 10, items at level 9).
Local Notation "'no_match' l" :=
  (Forall (fun regex => re_search regex utterance = NoMatch) l)
  (at level 10, l at level 9).

Lemma understand_loop_returns_compiles rest : forall k idx b r,
  loop (enumerate_from k rest) idx b = Ok r ->
  compiles re_search utterance rest.
Proof.
  induction rest as [|regex rest IH]; intros k idx b r; [constructor|].
  simpl. destruct (re_search regex utterance) as [| |fc] eqn:Hs; [done| |].
  - intros H. constructor; [congruence | eapply IH, H].
  - destruct (lt_bound _ b); intros H;
      (constructor; [congruence | eapply IH, H]).
Qed.

(** X7. [understand] returns exactly when the engine accepts every
    pattern of the list (so one refused pattern makes it fail even after
    a perfect match), and the only exception it raises is re.error. *)
Theorem understand_returns_iff_compiles (regex_list : list string) :
  (returns (understand re_search utterance regex_list)
   <-> compiles re_search utterance regex_list)
  /\ forall e, understand re_search utterance regex_list = Raise e ->
               e = RegexError.
Proof.
  split; [split|].
  - intros [r Hr]. eapply understand_loop_returns_compiles, Hr.
  - intros Hc.
    destruct (understand_loop_best re_search utterance regex_list [] NONE Inf Hc)
      as (r & b & Hr & _); [|now exists r].
    left. repeat split. intros j e (regex & fc & Hj & _). done.
  - intros e He.
    pose proof (understand_range re_search utterance regex_list) as H.
    rewrite He in H. apply H.
Qed.

Lemma understand_loop_skip pre : forall k l idx b,
  no_match pre ->
  loop (enumerate_from k (pre ++ l)) idx b
  = loop (enumerate_from (k + Z.of_nat (length pre)) l) idx b.
Proof.
  induction pre as [|regex pre IH]; intros k l idx b Hpre.
  - simpl. now rewrite Z.add_0_r.
  - apply Forall_cons in Hpre as [Hregex Hpre]. simpl. rewrite Hregex.
    rewrite IH by assumption. f_equal. f_equal. lia.
Qed.

Lemma understand_loop_drop l : forall k post idx b,
  no_match post ->
  loop (enumerate_from k (l ++ post)) idx b = loop (enumerate_from k l) idx b.
Proof.
  induction l as [|regex l IH]; intros k post idx b Hpost.
  - simpl. revert k. induction Hpost as [|regex post Hregex _ IHp]; intros k;
      simpl; [reflexivity | now rewrite Hregex].
  - simpl. destruct (re_search regex utterance); [reflexivity| |];
      [|destruct (lt_bound _ b)]; now apply IH.
Qed.

Lemma understand_loop_shift l : forall k d idx b,
  0 <= k -> idx = NONE \/ 0 <= idx ->
  loop (enumerate_from (k + d) l) (shift_index d idx) b
  = match loop (enumerate_from k l) idx b with
    | Ok r => Ok (shift_index d r)
    | Raise e => Raise e
    end.
Proof.
  induction l as [|regex l IH]; intros k d idx b Hk Hidx; [reflexivity|].
  simpl. replace (k + d + 1) with (k + 1 + d) by lia.
  assert (Hshift : k + d = shift_index d k)
    by (unfold shift_index, NONE; rewrite bool_decide_eq_false_2; lia).
  destruct (re_search regex utterance); [reflexivity| |].
  - apply IH; lia.
  - destruct (lt_bound _ b); [|apply IH; lia].
    rewrite Hshift. apply IH; lia.
Qed.

(** X8. Patterns that find nothing do not influence the result: put in
    front of the list they only shift the index returned by their
    number, put behind it they change nothing. *)
Theorem understand_ignores_no_match (pre regex_list post : list string) :
  no_match pre -> no_match post ->
  understand re_search utterance (pre ++ regex_list ++ post)
  = match understand re_search utterance regex_list with
    | Ok r => Ok (shift_index (Z.of_nat (length pre)) r)
    | Raise e => Raise e
    end.
Proof.
  intros Hpre Hpost. unfold understand, enumerate.
  rewrite understand_loop_skip, understand_loop_drop by assumption.
  rewrite <- (understand_loop_shift regex_list 0 _ NONE Inf) by (lia || now left).
  reflexivity.
Qed.

Lemma matches_with_app_l l l' j e :
  (j < length l)%nat ->
  matches_with re_search utterance (l ++ l') j e
  <-> matches_with re_search utterance l j e.
Proof.
  intros Hj. unfold matches_with.
  now setoid_rewrite (lookup_app_l l l' j Hj).
Qed.

Lemma matches_with_functional l j e e' :
  matches_with re_search utterance l j e ->
  matches_with re_search utterance l j e' -> e = e'.
Proof.
  intros (r & fc & Hj & Hr & <-) (r' & fc' & Hj' & Hr' & <-). congruence.
Qed.

(** X9. A match without errors cannot be displaced: when [understand]
    returns a pattern that matches with no error, it returns the same
    index however many patterns the engine accepts are added behind. *)
Theorem understand_perfect_match_stays (regex_list more : list string) (i : nat) :
  understand re_search utterance regex_list = Ok (Z.of_nat i) ->
  matches_with re_search utterance regex_list i 0 ->
  compiles re_search utterance more ->
  understand re_search utterance (regex_list ++ more) = Ok (Z.of_nat i).
Proof.
  intros Hr Hi Hmore.
  assert (Hc : compiles re_search utterance regex_list)
    by (eapply understand_loop_returns_compiles, Hr).
  assert (Hinit : best_state re_search utterance [] NONE Inf).
  { left. repeat split. intros j e (regex & fc & Hj & _). done. }
  destruct (understand_loop_best re_search utterance regex_list [] NONE Inf
              Hc Hinit) as (r & b & Hr' & Hst).
  unfold understand, enumerate in Hr.
  change (Z.of_nat (length (@nil string))) with 0 in Hr'. rewrite Hr in Hr'.
  injection Hr' as <-.
  destruct (understand_loop_best re_search utterance (regex_list ++ more) []
              NONE Inf) as (r2 & b2 & Hr2 & Hst2);
    [apply Forall_app; now split | exact Hinit |].
  unfold understand, enumerate.
  change (Z.of_nat (length (@nil string))) with 0 in Hr2.
  cbn [app] in Hst, Hst2. rewrite Hr2. f_equal.
  pose proof (matches_with_lt _ _ _ _ _ Hi) as Hlen.
  destruct Hst as [(Habs & _) | (i1 & e1 & Hi1 & _ & Hm1 & Hmin1)];
    [unfold NONE in Habs; lia|].
  apply Nat2Z.inj in Hi1 as <-.
  assert (e1 = 0%nat) as -> by (eapply matches_with_functional; eassumption).
  destruct Hst2 as [(_ & _ & Habs) | (i2 & e2 & -> & _ & Hm2 & Hmin2)].
  - destruct (Habs i 0%nat). now apply matches_with_app_l.
  - destruct (Hmin2 i 0%nat) as [He2 Hle]; [now apply matches_with_app_l|].
    assert (e2 = 0%nat) as -> by lia.
    specialize (Hle eq_refl).
    apply matches_with_app_l in Hm2; [|lia].
    destruct (Hmin1 i2 0%nat Hm2) as [_ Hle']. specialize (Hle' eq_refl).
    f_equal. lia.
Qed.

End UnderstandMore.

Lemma understand_ignores_no_match_witness :
  Forall (fun regex => Sample.re_search regex "help" = NoMatch) ["zzz"]
  /\ Forall (fun regex => Sample.re_search regex "help" = NoMatch) ["yyy"; "xxx"]
  /\ understand Sample.re_search "help"
       (["zzz"] ++ ["hepl"; "help"] ++ ["yyy"; "xxx"])%list
     = match understand Sample.re_search "help" ["hepl"; "help"] with
       | Ok r => Ok (shift_index (Z.of_nat (length ["zzz"])) r)
       | Raise e => Raise e
       end.
Proof.
  assert (Hpre : Forall (fun regex => Sample.re_search regex "help" = NoMatch)
                   ["zzz"]) by (repeat constructor).
  assert (Hpost : Forall (fun regex => Sample.re_search regex "help" = NoMatch)
                    ["yyy"; "xxx"]) by (repeat constructor).
  split; [exact Hpre|]. split; [exact Hpost|].
  exact (understand_ignores_no_match Sample.re_search "help"
           ["zzz"] ["hepl"; "help"] ["yyy"; "xxx"] Hpre Hpost).
Defined.

Lemma understand_perfect_match_stays_witness :
  understand Sample.re_search "help" ["hepl"; "help"] = Ok (Z.of_nat 1)
  /\ matches_with Sample.re_search "help" ["hepl"; "help"] 1 0
  /\ compiles Sample.re_search "help" ["elp"; "zzz"]
  /\ understand Sample.re_search "help" (["hepl"; "help"] ++ ["elp"; "zzz"])%list
     = Ok (Z.of_nat 1).
Proof.
  assert (Hr : understand Sample.re_search "help" ["hepl"; "help"]
               = Ok (Z.of_nat 1)) by reflexivity.
  assert (Hi : matches_with Sample.re_search "help" ["hepl"; "help"] 1 0)
    by (exists "help", (0, 0, 0)%nat; repeat split).
  assert (Hc : compiles Sample.re_search "help" ["elp"; "zzz"])
    by (repeat constructor; vm_compute; discriminate).
  split; [exact Hr|]. split; [exact Hi|]. split; [exact Hc|].
  exact (understand_perfect_match_stays Sample.re_search "help"
           ["hepl"; "help"] ["elp"; "zzz"] 1 Hr Hi Hc).
Defined.

(** ** Alternating responses: the stored state, the templates *)

Section ResponseManagerMore.
Local Open Scope list_scope.

Lemma get_responses_state calls : forall self entity_label,
  alternating self ->
  last_response (snd (get_responses calls self)) !! entity_label
  = if decide (hits entity_label calls = 0%nat)
    then last_response self !! entity_label
    else Some ((next_index self entity_label
                + Z.of_nat (hits entity_label calls)) `mod` 2).
Proof.
  induction calls as [|[l0 t0] calls IH]; intros self l Halt; [reflexivity|].
  cbn [get_responses].
  pose proof (get_response_keeps_alternating l0 t0 self Halt) as Halt'.
  destruct (get_response_alternating l0 t0 self Halt) as (r0 & Hr0 & _).
  destruct (get_response l0 t0 self) as [r self'] eqn:Hcall.
  injection Hr0 as -> ->. cbn [snd] in Halt'.
  specialize (IH _ l Halt').
  destruct (get_responses calls _) as [rs self'']. cbn [snd] in *.
  rewrite IH, hits_cons. cbn [fst].
  destruct (String.eqb_spec l0 l) as [->|Hne].
  - assert (Hn : forall v m,
               next_index {| last_response := <[l:=v]> m |} l = v)
      by (intros v m; unfold next_index; cbn [last_response];
          now rewrite lookup_insert_eq).
    rewrite Hn. cbn [last_response]. rewrite lookup_insert_eq.
    rewrite (decide_False (P := (1 + _ = 0)%nat)) by lia.
    destruct (decide (hits l calls = 0%nat)) as [->|_].
    + reflexivity.
    + rewrite Z.add_mod_idemp_l by lia. do 2 f_equal. lia.
  - assert (Hn : forall v m,
               next_index {| last_response := <[l0:=v]> m |} l
               = default 0 (m !! l))
      by (intros v m; unfold next_index; cbn [last_response];
          now rewrite lookup_insert_ne).
    rewrite Hn. cbn [last_response]. rewrite lookup_insert_ne by assumption.
    rewrite Nat.add_0_l. reflexivity.
Qed.

(** X10. After any run of calls of [get_response] on a fresh manager,
    the manager stores an index for the labels that were passed and for
    no other, and the index stored for a label is the parity of the
    number of calls with it: the variant its next call will use. *)
Theorem get_responses_final_state (calls : list (string * string))
    (entity_label : string) :
  last_response (snd (get_responses calls new_manager)) !! entity_label
  = if decide (hits entity_label calls = 0%nat) then None
    else Some (Z.of_nat (hits entity_label calls) `mod` 2).
Proof.
  rewrite get_responses_state by apply new_manager_alternating.
  unfold next_index. cbn [new_manager last_response].
  now rewrite lookup_empty.
Qed.

Ltac two_texts entity_text :=
  eexists _, _, _, _; reflexivity.

(** Both templates of a label are the entity text between two fixed
    pieces. *)
Lemma templates_mention entity_label entity_text :
  exists p0 q0 p1 q1,
    templates entity_label entity_text
    = [p0 +:+ entity_text +:+ q0; p1 +:+ entity_text +:+ q1].
Proof.
  unfold templates, responses.
  destruct (decide (entity_label = "CHARACTER")) as [->|H1];
    [two_texts entity_text|].
  destruct (decide (entity_label = "PLACE")) as [->|H2];
    [two_texts entity_text|].
  destruct (decide (entity_label = "EVENT")) as [->|H3];
    [two_texts entity_text|].
  destruct (decide (entity_label = "OTHER")) as [->|H4];
    [two_texts entity_text|].
  rewrite !lookup_insert_ne, lookup_singleton_ne by congruence.
  two_texts entity_text.
Qed.

Lemma getitem_elem {A} (l : list A) (i : Z) (x : A) :
  getitem l i = Ok x -> x ∈ l.
Proof.
  unfold getitem. destruct (_ <? 0); [done|].
  destruct (l !! _) as [y|] eqn:E; [|done].
  intros [= <-]. now apply list_elem_of_lookup_2 in E.
Qed.

(** X11. Whatever the label and the state of the manager, a response
    that [get_response] returns contains the entity text it was given. *)
Theorem get_response_mentions_text (entity_label entity_text : string)
    (self self' : ResponseManager) (response : string) :
  get_response entity_label entity_text self = (Ok response, self') ->
  exists before after, response = before +:+ entity_text +:+ after.
Proof.
  unfold get_response.
  destruct (templates_mention entity_label entity_text)
    as (p0 & q0 & p1 & q1 & ->).
  destruct (getitem _ _) as [r|] eqn:Hget; [|done].
  intros [= <- _]. apply getitem_elem in Hget.
  apply elem_of_cons in Hget as [-> | Hget]; [now exists p0, q0|].
  apply elem_of_cons in Hget as [-> | Hget]; [now exists p1, q1|].
  now apply elem_of_nil in Hget.
Qed.

Lemma templates_unknown entity_label entity_text :
  entity_label ∉ ["CHARACTER"; "PLACE"; "EVENT"] ->
  templates entity_label entity_text = templates "OTHER" entity_text.
Proof.
  intros Hl. rewrite !not_elem_of_cons in Hl. destruct Hl as (H1 & H2 & H3 & _).
  unfold templates, responses.
  destruct (decide (entity_label = "OTHER")) as [->|H4]; [reflexivity|].
  now rewrite !lookup_insert_ne, lookup_singleton_ne by congruence.
Qed.

(** X12. A label that is none of CHARACTER, PLACE and EVENT is answered
    with the templates of OTHER, but counted under its own name: its
    response is the one OTHER gives at the same stored index, and what
    is stored for OTHER does not move. *)
Theorem get_response_unknown_label (entity_label entity_text : string)
    (self : ResponseManager) :
  entity_label ∉ ["CHARACTER"; "PLACE"; "EVENT"; "OTHER"] ->
  fst (get_response entity_label entity_text self)
  = getitem (templates "OTHER" entity_text) (next_index self entity_label)
  /\ last_response (snd (get_response entity_label entity_text self)) !! "OTHER"
     = last_response self !! "OTHER".
Proof.
  intros Hl. rewrite !not_elem_of_cons in Hl.
  destruct Hl as (H1 & H2 & H3 & H4 & _).
  unfold get_response. rewrite templates_unknown
    by (rewrite !not_elem_of_cons; repeat split; [done..|apply not_elem_of_nil]).
  destruct (getitem _ _); cbn [fst snd last_response]; [|done].
  split; [done|]. now rewrite lookup_insert_ne.
Qed.

End ResponseManagerMore.

Lemma get_response_mentions_text_witness :
  get_response "PLACE" "Eden" {| last_response := {[ "PLACE" := 1 ]} |}
  = (Ok ("The place called Eden is beyond my current knowledge. "
         +:+ "What else can I assist with?"),
     {| last_response := {[ "PLACE" := 0 ]} |})
  /\ exists before after,
       "The place called Eden is beyond my current knowledge. "
         +:+ "What else can I assist with?"
       = before +:+ "Eden" +:+ after.
Proof.
  assert (H : get_response "PLACE" "Eden"
                {| last_response := {[ "PLACE" := 1 ]} |}
              = (Ok ("The place called Eden is beyond my current knowledge. "
                     +:+ "What else can I assist with?"),
                 {| last_response := {[ "PLACE" := 0 ]} |}))
    by reflexivity.
  split; [exact H|].
  exact (get_response_mentions_text "PLACE" "Eden" _ _ _ H).
Defined.

Lemma get_response_unknown_label_witness :
  ("ANIMAL" ∉ ["CHARACTER"; "PLACE"; "EVENT"; "OTHER"])
  /\ fst (get_response "ANIMAL" "dove" {| last_response := {[ "OTHER" := 1 ]} |})
     = getitem (templates "OTHER" "dove")
               (next_index {| last_response := {[ "OTHER" := 1 ]} |} "ANIMAL")
  /\ last_response
       (snd (get_response "ANIMAL" "dove"
               {| last_response := {[ "OTHER" := 1 ]} |})) !! "OTHER"
     = ({[ "OTHER" := 1 ]} : gmap string Z) !! "OTHER".
Proof.
  assert (H : "ANIMAL" ∉ ["CHARACTER"; "PLACE"; "EVENT"; "OTHER"]).
  { rewrite !not_elem_of_cons. repeat split; [done..|apply not_elem_of_nil]. }
  split; [exact H|].
  exact (get_response_unknown_label "ANIMAL" "dove"
           {| last_response := {[ "OTHER" := 1 ]} |} H).
Defined.

(** ** Entity fallback analyzer and the two drivers *)

Section DriverFacts.
Local Open Scope list_scope.

Variable re_search : string -> string -> search_result.
Variable matcher : string -> list (rule * string).
Variable ents : string -> list (string * string).

Local Notation "'analyze' u" := (analyze_utterance matcher ents u)
  (at level 10, u at level 9).
Local Notation "'run' u" := (pipeline re_search matcher ents u)
  (at level 10, u at level 9).
Local Notation "'session' i" := (main_loop re_search matcher ents i)
  (at level 10, i at level 9).
Local Notation "'handle' c" := (on_message re_search matcher ents c)
  (at level 10, c at level 9).

Lemma find_first {A} (f : A -> bool) pre x post :
  Forall (fun y => f y = false) pre -> f x = true ->
  List.find f (pre ++ x :: post) = Some x.
Proof.
  intros Hpre Hx. induction Hpre as [|y pre Hy _ IH]; simpl.
  - now rewrite Hx.
  - now rewrite Hy.
Qed.

(** X13. When the gazetteer matcher finds nothing, the recognizer's
    entities are tried in order and the first one labelled PERSON, GPE,
    LOC or ORG is answered, under the label OTHER, with its text;
    entities with other labels before it are passed over. *)
Theorem analyze_utterance_first_entity (utterance : string)
    (rm : ResponseManager) (pre post : list (string * string))
    (label text : string) :
  matcher utterance = [] ->
  ents utterance = pre ++ (label, text) :: post ->
  Forall (fun ent => fst ent ∉ other_labels) pre ->
  label ∈ other_labels ->
  analyze utterance rm = get_response "OTHER" text rm.
Proof.
  intros Hm He Hpre Hlabel. unfold analyze_utterance. rewrite Hm, He.
  rewrite find_first; [reflexivity | | now apply bool_decide_eq_true_2].
  eapply List.Forall_impl; [|exact Hpre].
  intros ent Hent. now apply bool_decide_eq_false_2.
Qed.

(** What a turn past the greetings gives when the knowledge base is
    sound. *)
Lemma pipeline_sound utterance regex_list questions answers rm :
  compiles re_search utterance regex_list ->
  alternating rm ->
  (length regex_list <= length answers)%nat ->
  exists response rm',
    run utterance regex_list questions answers rm = (Ok response, rm')
    /\ alternating rm'.
Proof.
  intros Hc Halt Hlen. unfold pipeline.
  pose proof (understand_range re_search utterance regex_list) as Hr.
  destruct (understand re_search utterance regex_list) as [intent|e];
    [|now destruct Hr].
  unfold generate. fold NONE.
  destruct Hr as [-> | Hr].
  - rewrite bool_decide_eq_true_2 by reflexivity.
    destruct (analyze_utterance_returns matcher ents utterance rm Halt)
      as [[response Hret] Hkeep].
    destruct (analyze utterance rm) as [r rm']. simpl in *. subst r.
    now exists response, rm'.
  - rewrite bool_decide_eq_false_2 by (unfold NONE; lia).
    destruct (getitem_in_range answers intent) as (a & _ & ->); [lia|].
    now exists a, rm.
Qed.

(** X14. The two drivers answer alike.  For a message whose author is
    neither the client itself nor a bot, [on_message] sends what the
    console loop prints for the same line from the same state, leaves the
    same response manager, closes the client exactly where the loop
    ends, and fails with the same exception. *)
Theorem on_message_agrees_with_main (self : MyClient) (message : Message)
    (rest : list string) (rm : ResponseManager) :
  author_is_user message = false ->
  author_bot message = false ->
  match handle self message rm with
  | (Raise e, rm') =>
      session (content message :: rest) (self_questions self)
              (self_responses self) (self_regex_list self) rm
      = ([Prompt ">>> "], Uncaught e, rm')
  | (Ok reaction, rm') =>
      exists response,
        sent reaction = [response]
        /\ session (content message :: rest) (self_questions self)
                   (self_responses self) (self_regex_list self) rm
           = if closed reaction
             then ([Prompt ">>> "; Print response], Finished, rm')
             else
               let '(out, o, rm'') :=
                 session rest (self_questions self) (self_responses self)
                         (self_regex_list self) rm' in
               (Prompt ">>> " :: Print response :: Print "" :: out, o, rm'')
  end.
Proof.
  intros Huser Hbot. unfold on_message. rewrite Huser, Hbot.
  cbn [orb main_loop].
  destruct (String.eqb (sanitize_text (content message)) "hello");
    [now exists hello_reply|].
  destruct (String.eqb (sanitize_text (content message)) "goodbye");
    [now exists goodbye_reply|].
  destruct (run (content message) _ _ _ rm) as [[response|e] rm'];
    [now exists response | reflexivity].
Qed.

Ltac reaction_cases :=
  repeat split; intros;
  repeat match goal with
         | H : _ /\ _ |- _ => destruct H
         | H : _ \/ _ |- _ => destruct H
         end;
  try done; try lia; try congruence.

(** X15. [on_message] sends at most one message; it sends none exactly
    when the author is the client itself or a bot, it closes the client
    exactly when the author is neither and the sanitized content is
    goodbye, and in both cases and for hello the response manager is
    left as it was.  It can only fail past the greetings. *)
Theorem on_message_reaction (self : MyClient) (message : Message)
    (rm : ResponseManager) :
  match handle self message rm with
  | (Ok reaction, rm') =>
      (length (sent reaction) <= 1)%nat
      /\ (sent reaction = []
          <-> author_is_user message || author_bot message = true)
      /\ (closed reaction = true
          <-> author_is_user message || author_bot message = false
              /\ sanitize_text (content message) = "goodbye")
      /\ (author_is_user message || author_bot message = true
          \/ sanitize_text (content message) = "hello"
          \/ sanitize_text (content message) = "goodbye" -> rm' = rm)
  | (Raise e, rm') =>
      author_is_user message || author_bot message = false
      /\ sanitize_text (content message) <> "hello"
      /\ sanitize_text (content message) <> "goodbye"
  end.
Proof.
  unfold on_message.
  destruct (author_is_user message || author_bot message) eqn:Hauthor;
    [cbn; reaction_cases|].
  destruct (String.eqb_spec (sanitize_text (content message)) "hello")
    as [Hhello|Hhello]; [cbn; reaction_cases|].
  destruct (String.eqb_spec (sanitize_text (content message)) "goodbye")
    as [Hbye|Hbye]; [cbn; reaction_cases|].
  destruct (run (content message) _ _ _ rm) as [[response|e] rm']; cbn;
    reaction_cases.
Qed.

Lemma main_loop_hello utterance inputs questions responses regex_list rm :
  sanitize_text utterance = "hello" ->
  session (utterance :: inputs) questions responses regex_list rm
  = let '(out, o, rm') := session inputs questions responses regex_list rm in
    (Prompt ">>> " :: Print hello_reply :: Print "" :: out, o, rm').
Proof. intros H. cbn [main_loop]. now rewrite H. Qed.

Lemma main_loop_goodbye utterance inputs questions responses regex_list rm :
  sanitize_text utterance = "goodbye" ->
  session (utterance :: inputs) questions responses regex_list rm
  = ([Prompt ">>> "; Print goodbye_reply], Finished, rm).
Proof. intros H. cbn [main_loop]. now rewrite H. Qed.

(** X16. Nothing is read after goodbye: the lines that follow the first
    line sanitized to goodbye have no influence on what the console loop
    prints, on how it ends or on the response manager. *)
Theorem main_loop_stops_at_goodbye (pre : list string) (utterance : string)
    (post post' questions responses regex_list : list string)
    (rm : ResponseManager) :
  sanitize_text utterance = "goodbye" ->
  session (pre ++ utterance :: post) questions responses regex_list rm
  = session (pre ++ utterance :: post') questions responses regex_list rm.
Proof.
  intros Hbye. revert rm. induction pre as [|u pre IH]; intros rm.
  - cbn [app]. now rewrite !main_loop_goodbye.
  - cbn [app main_loop].
    destruct (String.eqb (sanitize_text u) "hello"); [now rewrite IH|].
    destruct (String.eqb (sanitize_text u) "goodbye"); [reflexivity|].
    destruct (run u _ _ _ rm) as [[response|e] rm']; [|reflexivity].
    now rewrite IH.
Qed.

(** X17. Greetings change nothing but their own reply: how the console
    loop ends and the response manager it leaves are those of the same
    lines with the lines sanitized to hello taken out. *)
Theorem main_loop_hello_transparent
    (inputs questions responses regex_list : list string)
    (rm : ResponseManager) :
  snd (session inputs questions responses regex_list rm)
  = snd (session
           (List.filter (fun u => negb (String.eqb (sanitize_text u) "hello"))
                        inputs)
           questions responses regex_list rm)
  /\ snd (fst (session inputs questions responses regex_list rm))
     = snd (fst (session
                   (List.filter
                      (fun u => negb (String.eqb (sanitize_text u) "hello"))
                      inputs)
                   questions responses regex_list rm)).
Proof.
  revert rm. induction inputs as [|u inputs IH]; intros rm; [done|].
  cbn [List.filter main_loop].
  destruct (String.eqb (sanitize_text u) "hello") eqn:Hhello; cbn [negb].
  - specialize (IH rm).
    destruct (session inputs _ _ _ rm) as [[out o] rm']. exact IH.
  - cbn [main_loop]. rewrite Hhello.
    destruct (String.eqb (sanitize_text u) "goodbye"); [done|].
    destruct (run u _ _ _ rm) as [[response|e] rm']; [|done].
    specialize (IH rm').
    destruct (session inputs _ _ _ rm') as [[out o] rm''].
    destruct (session (List.filter _ inputs) _ _ _ rm') as [[out2 o2] rm2].
    exact IH.
Qed.

(** X18. The console loop ends normally only by goodbye: if it is left
    by [break], some line is sanitized to goodbye, no line before it is,
    and the last thing printed is the reply to it. *)
Theorem main_loop_finished_by_goodbye
    (inputs questions responses regex_list : list string)
    (rm rm' : ResponseManager) (out : list event) :
  session inputs questions responses regex_list rm = (out, Finished, rm') ->
  exists pre utterance post out',
    inputs = pre ++ utterance :: post
    /\ sanitize_text utterance = "goodbye"
    /\ Forall (fun u => sanitize_text u <> "goodbye") pre
    /\ out = out' ++ [Prompt ">>> "; Print goodbye_reply].
Proof.
  revert rm out. induction inputs as [|u inputs IH]; intros rm out; [done|].
  cbn [main_loop].
  destruct (String.eqb_spec (sanitize_text u) "hello") as [Hhello|_].
  - destruct (session inputs _ _ _ rm) as [[out1 o1] rm1] eqn:Hs.
    intros [= <- -> ->].
    destruct (IH _ _ Hs) as (pre & v & post & out' & -> & Hv & Hpre & ->).
    exists (u :: pre), v, post,
      (Prompt ">>> " :: Print hello_reply :: Print "" :: out').
    split; [done|]. split; [done|]. split; [|done].
    constructor; [|done]. rewrite Hhello. discriminate.
  - destruct (String.eqb_spec (sanitize_text u) "goodbye") as [Hbye|Hbye].
    + intros [= <- ->]. now exists [], u, inputs, [].
    + destruct (run u _ _ _ rm) as [[response|e] rm1]; [|done].
      destruct (session inputs _ _ _ rm1) as [[out1 o1] rm2] eqn:Hs.
      intros [= <- -> ->].
      destruct (IH _ _ Hs) as (pre & v & post & out' & -> & Hv & Hpre & ->).
      exists (u :: pre), v, post,
        (Prompt ">>> " :: Print response :: Print "" :: out').
      split; [done|]. split; [done|]. split; [|done]. now constructor.
Qed.

(** X19. With a sound knowledge base the console loop never fails: when
    the engine accepts every pattern on every line, there are at least
    as many answers as patterns and the stored indices are 0 or 1, no
    exception escapes; the loop ends by goodbye if some line is
    sanitized to goodbye and at the end of the input otherwise, and the
    stored indices are still 0 or 1. *)
Theorem main_loop_sound (inputs questions responses regex_list : list string)
    (rm : ResponseManager) :
  Forall (fun u => compiles re_search u regex_list) inputs ->
  (length regex_list <= length responses)%nat ->
  alternating rm ->
  snd (fst (session inputs questions responses regex_list rm))
  = (if existsb (fun u => String.eqb (sanitize_text u) "goodbye") inputs
     then Finished else EndOfInput)
  /\ alternating (snd (session inputs questions responses regex_list rm)).
Proof.
  intros Hc Hlen. revert rm.
  induction Hc as [|u inputs Hu _ IH]; intros rm Halt; [done|].
  cbn [main_loop existsb].
  destruct (String.eqb (sanitize_text u) "goodbye") eqn:Hbye.
  - destruct (String.eqb_spec (sanitize_text u) "hello") as [Hhello|_];
      [|done].
    apply String.eqb_eq in Hbye. congruence.
  - cbn [orb].
    destruct (String.eqb (sanitize_text u) "hello").
    + specialize (IH rm Halt).
      now destruct (session inputs _ _ _ rm) as [[out o] rm'].
    + destruct (pipeline_sound u regex_list questions responses rm Hu Halt Hlen)
        as (response & rm' & -> & Halt').
      specialize (IH rm' Halt').
      now destruct (session inputs _ _ _ rm') as [[out o] rm''].
Qed.


End DriverFacts.

Lemma analyze_utterance_first_entity_witness :
  (fun _ : string => @nil (rule * string)) "Is NASA in Toronto today?" = []
  /\ (fun _ : string => [("DATE", "today"); ("ORG", "NASA"); ("GPE", "Toronto")])
       "Is NASA in Toronto today?"
     = ([("DATE", "today")] ++ ("ORG", "NASA") :: [("GPE", "Toronto")])%list
  /\ Forall (fun ent : string * string => fst ent ∉ other_labels)
            [("DATE", "today")]
  /\ "ORG" ∈ other_labels
  /\ analyze_utterance
       (fun _ => [])
       (fun _ => [("DATE", "today"); ("ORG", "NASA"); ("GPE", "Toronto")])
       "Is NASA in Toronto today?" new_manager
     = get_response "OTHER" "NASA" new_manager.
Proof.
  assert (Hpre : Forall (fun ent : string * string => fst ent ∉ other_labels)
                   [("DATE", "today")]).
  { repeat constructor. cbn. unfold other_labels.
    rewrite !not_elem_of_cons. repeat split; [done..|apply not_elem_of_nil]. }
  assert (Hl : "ORG" ∈ other_labels)
    by (unfold other_labels; rewrite !elem_of_cons; tauto).
  split; [reflexivity|]. split; [reflexivity|].
  split; [exact Hpre|]. split; [exact Hl|].
  exact (analyze_utterance_first_entity
           (fun _ => [])
           (fun _ => [("DATE", "today"); ("ORG", "NASA"); ("GPE", "Toronto")])
           "Is NASA in Toronto today?" new_manager
           [("DATE", "today")] [("GPE", "Toronto")] "ORG" "NASA"
           eq_refl eq_refl Hpre Hl).
Defined.

Lemma on_message_agrees_with_main_witness :
  author_is_user {| author_is_user := false; author_bot := false;
                    content := "Who was Adam?" |} = false
  /\ author_bot {| author_is_user := false; author_bot := false;
                   content := "Who was Adam?" |} = false
  /\ match on_message Sample.re_search Sample.matcher Sample.ents
           {| self_questions := ["q0"]; self_responses := ["a0"];
              self_regex_list := ["help"] |}
           {| author_is_user := false; author_bot := false;
              content := "Who was Adam?" |} new_manager with
     | (Raise e, rm') =>
         main_loop Sample.re_search Sample.matcher Sample.ents
           ("Who was Adam?" :: ["help"]) ["q0"] ["a0"] ["help"] new_manager
         = ([Prompt ">>> "], Uncaught e, rm')
     | (Ok reaction, rm') =>
         exists response,
           sent reaction = [response]
           /\ main_loop Sample.re_search Sample.matcher Sample.ents
                ("Who was Adam?" :: ["help"]) ["q0"] ["a0"] ["help"] new_manager
              = if closed reaction
                then ([Prompt ">>> "; Print response], Finished, rm')
                else
                  let '(out, o, rm'') :=
                    main_loop Sample.re_search Sample.matcher Sample.ents
                      ["help"] ["q0"] ["a0"] ["help"] rm' in
                  (Prompt ">>> " :: Print response :: Print "" :: out, o, rm'')
     end.
Proof.
  split; [reflexivity|]. split; [reflexivity|].
  exact (on_message_agrees_with_main Sample.re_search Sample.matcher Sample.ents
           {| self_questions := ["q0"]; self_responses := ["a0"];
              self_regex_list := ["help"] |}
           {| author_is_user := false; author_bot := false;
              content := "Who was Adam?" |} ["help"] new_manager
           eq_refl eq_refl).
Defined.

Lemma main_loop_stops_at_goodbye_witness :
  sanitize_text "Good-bye!" = "goodbye"
  /\ main_loop Sample.re_search Sample.matcher Sample.ents
       (["Hello"; "help"] ++ "Good-bye!" :: ["help"; "("])%list
       ["q0"] ["a0"] ["help"] new_manager
     = main_loop Sample.re_search Sample.matcher Sample.ents
         (["Hello"; "help"] ++ "Good-bye!" :: [])%list
         ["q0"] ["a0"] ["help"] new_manager.
Proof.
  split; [reflexivity|].
  exact (main_loop_stops_at_goodbye Sample.re_search Sample.matcher Sample.ents
           ["Hello"; "help"] "Good-bye!" ["help"; "("] []
           ["q0"] ["a0"] ["help"] new_manager eq_refl).
Defined.

Lemma main_loop_finished_by_goodbye_witness :
  main_loop Sample.re_search Sample.matcher Sample.ents
    ["Hello!"; "help"; "GOODBYE"; "help"] ["q0"] ["a0"] ["help"] new_manager
  = ([Prompt ">>> "; Print hello_reply; Print "";
      Prompt ">>> "; Print "a0"; Print "";
      Prompt ">>> "; Print goodbye_reply], Finished, new_manager)
  /\ exists pre utterance post out',
       ["Hello!"; "help"; "GOODBYE"; "help"] = (pre ++ utterance :: post)%list
       /\ sanitize_text utterance = "goodbye"
       /\ Forall (fun u => sanitize_text u <> "goodbye") pre
       /\ [Prompt ">>> "; Print hello_reply; Print "";
           Prompt ">>> "; Print "a0"; Print "";
           Prompt ">>> "; Print goodbye_reply]
          = (out' ++ [Prompt ">>> "; Print goodbye_reply])%list.
Proof.
  split; [reflexivity|].
  exact (main_loop_finished_by_goodbye
           Sample.re_search Sample.matcher Sample.ents
           ["Hello!"; "help"; "GOODBYE"; "help"] ["q0"] ["a0"] ["help"]
           new_manager new_manager _ eq_refl).
Defined.

Lemma main_loop_sound_witness :
  Forall (fun u => compiles Sample.re_search u ["hepl"; "help"])
         ["help"; "Who was Adam?"; "Where is Toronto?"]
  /\ (length ["hepl"; "help"] <= length ["a0"; "a1"])%nat
  /\ alternating new_manager
  /\ snd (fst (main_loop Sample.re_search Sample.matcher Sample.ents
                 ["help"; "Who was Adam?"; "Where is Toronto?"]
                 ["q0"; "q1"] ["a0"; "a1"] ["hepl"; "help"] new_manager))
     = (if existsb (fun u => String.eqb (sanitize_text u) "goodbye")
                   ["help"; "Who was Adam?"; "Where is Toronto?"]
        then Finished else EndOfInput)
  /\ alternating
       (snd (main_loop Sample.re_search Sample.matcher Sample.ents
               ["help"; "Who was Adam?"; "Where is Toronto?"]
               ["q0"; "q1"] ["a0"; "a1"] ["hepl"; "help"] new_manager)).
Proof.
  assert (Hc : Forall (fun u => compiles Sample.re_search u ["hepl"; "help"])
                 ["help"; "Who was Adam?"; "Where is Toronto?"])
    by (repeat constructor; vm_compute; discriminate).
  assert (Hlen : (length ["hepl"; "help"] <= length ["a0"; "a1"])%nat)
    by (simpl; lia).
  split; [exact Hc|]. split; [exact Hlen|].
  split; [exact new_manager_alternating|].
  exact (main_loop_sound Sample.re_search Sample.matcher Sample.ents
           ["help"; "Who was Adam?"; "Where is Toronto?"]
           ["q0"; "q1"] ["a0"; "a1"] ["hepl"; "help"] new_manager
           Hc Hlen new_manager_alternating).
Defined.

Example main_sample :
  main Sample.re_search Sample.matcher Sample.ents Sample.fs
       ["Hello"; "help"; "Who was Adam?"; "Goodbye."]
  = (banner
       ++ [Prompt ">>> "; Print hello_reply; Print "";
           Prompt ">>> "; Print "a1"; Print "";
           Prompt ">>> "; Print "What would you like to know about Adam?";
           Print "";
           Prompt ">>> "; Print goodbye_reply;
           Print farewell],
     Finished, {| last_response := {[ "CHARACTER" := 1 ]} |})%list.
Proof. reflexivity. Qed.
